(** * Site interactivity script (js/main.js): a shallow embedding

    The script is one immediately-invoked function that queries a fixed
    set of elements and attaches listeners to them.  The page is modelled
    as a record of the DOM state the listeners read and write; every
    listener is a function on that record; the browser's event dispatch,
    its listener registry and its timer queue are modelled explicitly. *)

From Stdlib Require Import ZArith Ascii String List Bool Lia.
From stdpp Require Import base decidable option list strings gmap.

Local Open Scope string_scope.
Local Open Scope Z_scope.
Local Open Scope list_scope.

(** ** Nodes, events, native calls *)

(** The elements the script looks up, by the selector that finds them. *)
Inductive node :=
  | Document                 (* document *)
  | ThemeToggle              (* [data-theme-toggle] *)
  | Hamburger                (* [data-hamburger] *)
  | SiteNav                  (* .site-nav *)
  | NavLink (i : nat)        (* siteNav.querySelectorAll('a')[i] *)
  | DetailsN (i : nat)       (* querySelectorAll('details')[i] *)
  | SummaryN (i : nat)       (* its summary *)
  | SearchDialog             (* .search-dialog *)
  | SearchTrigger            (* [data-search-trigger] *)
  | SearchClose              (* .search-dialog__close *)
  | SearchInput              (* .search-dialog__input *)
  | Hint (i : nat)           (* querySelectorAll('.search-dialog__hint')[i] *)
  | SkipLink                 (* .skip-link *)
  | MainEl                   (* main *)
  | Other (i : nat).         (* any other element of the page *)

#[global] Instance node_eq_dec : EqDecision node.
Proof. solve_decision. Defined.

Inductive event_kind := Click | KeyDown | Toggle | Cancel | AnimationEnd.

#[global] Instance event_kind_eq_dec : EqDecision event_kind.
Proof. solve_decision. Defined.

(** An event carries its target, the elements above the target (innermost
    first; the document, which ends every bubbling path, is added by
    [propagation]), and the fields the listeners read. *)
Record event := {
  ev_kind : event_kind;
  ev_target : node;
  ev_ancestors : list node;
  ev_key : string;
  ev_clientX : Z;
  ev_clientY : Z
}.

(** Native primitives whose invocation is observable. *)
Inductive call :=
  | CallShowModal
  | CallClose
  | CallFocus (n : node)
  | CallPreventDefault
  | CallScrollTo (top : Z).

#[global] Instance call_eq_dec : EqDecision call.
Proof. solve_decision. Defined.

(** ** The key-value store (localStorage)

    [getItem] and [setItem] are the only two points of the script that can
    raise: a browser that denies storage access raises on read, a full or
    read-only store raises on write. *)
Record Storage := {
  st_items : gmap string string;
  st_get_throws : bool;
  st_set_throws : bool
}.

(** [None] is an exception, [Some None] is JavaScript's [null]. *)
Definition getItem (k : string) (st : Storage) : option (option string) :=
  if st_get_throws st then None else Some (st_items st !! k).

Definition setItem (k v : string) (st : Storage) : option Storage :=
  if st_set_throws st then None
  else Some {| st_items := <[k := v]> (st_items st);
               st_get_throws := st_get_throws st;
               st_set_throws := st_set_throws st |}.

(** JavaScript truthiness of a value that is a string, [undefined] or
    [null]: the empty string and the absent value are falsy. *)
Definition truthy (v : option string) : bool :=
  match v with
  | Some s => negb (String.eqb s "")
  | None => false
  end.

(** [v === s] for such a value. *)
Definition is_str (v : option string) (s : string) : bool :=
  match v with
  | Some s' => String.eqb s' s
  | None => false
  end.

Definition label_to_light : string := "Přepnout na světlý motiv".
Definition label_to_dark : string := "Přepnout na tmavý motiv".

(** Strings hold the UTF-8 encoding of the JavaScript string.

    [String.prototype.trim] removes white space and line terminators from
    both ends: U+0009 to U+000D and U+0020, one byte each; U+00A0, two
    bytes; U+1680, U+2000 to U+200A, U+2028, U+2029, U+202F, U+205F,
    U+3000 and U+FEFF, three bytes each. *)
Definition is_js_space (c : ascii) : bool :=
  let n := nat_of_ascii c in
  ((9 <=? n) && (n <=? 13))%nat || (n =? 32)%nat.

Definition is_js_space2 (a b : ascii) : bool :=
  ((nat_of_ascii a =? 194) && (nat_of_ascii b =? 160))%nat.      (* U+00A0 *)

Definition is_js_space3 (a b c : ascii) : bool :=
  let x := nat_of_ascii a in
  let y := nat_of_ascii b in
  let z := nat_of_ascii c in
  ((x =? 225) && (y =? 154) && (z =? 128)                        (* U+1680 *)
   || (x =? 226) && (y =? 128)
      && ((128 <=? z) && (z <=? 138)                             (* U+2000 to U+200A *)
          || (z =? 168) || (z =? 169) || (z =? 175))             (* U+2028, U+2029, U+202F *)
   || (x =? 226) && (y =? 129) && (z =? 159)                     (* U+205F *)
   || (x =? 227) && (y =? 128) && (z =? 128)                     (* U+3000 *)
   || (x =? 239) && (y =? 187) && (z =? 191))%nat.               (* U+FEFF *)

(** Removes the white space at the front of [s]; with [backwards], [s] is
    a reversed string and the bytes of a code point come last byte first. *)
Fixpoint strip_spaces (backwards : bool) (s : string) : string :=
  match s with
  | EmptyString => s
  | String c1 r1 =>
      if is_js_space c1 then strip_spaces backwards r1
      else
        match r1 with
        | EmptyString => s
        | String c2 r2 =>
            if (if backwards then is_js_space2 c2 c1 else is_js_space2 c1 c2)
            then strip_spaces backwards r2
            else
              match r2 with
              | EmptyString => s
              | String c3 r3 =>
                  if (if backwards then is_js_space3 c3 c2 c1 else is_js_space3 c1 c2 c3)
                  then strip_spaces backwards r3
                  else s
              end
        end
  end.

Definition trim_start (s : string) : string := strip_spaces false s.

Definition trim (s : string) : string :=
  String.rev (strip_spaces true (String.rev (trim_start s))).

(** ** The page *)

Record Rect := { r_left : Z; r_right : Z; r_top : Z; r_bottom : Z }.

(** What the selectors find; fixed for the life of the page. *)
Record Dom := {
  has_theme_toggle : bool;
  has_hamburger : bool;
  has_site_nav : bool;
  nav_links : nat;
  has_search_dialog : bool;
  has_search_trigger : bool;
  has_search_close : bool;
  has_search_input : bool;
  hints : list string;          (* textContent of every hint *)
  has_skip_link : bool;
  has_main : bool;
  header_height : option Z;     (* .site-header offsetHeight, if any *)
  main_top : Z;                 (* mainEl.getBoundingClientRect().top *)
  scroll_y : Z;                 (* window.scrollY *)
  dlg_rect : Rect               (* searchDialog.getBoundingClientRect() *)
}.

Record ThemeSt := {
  theme_attr : option string;     (* documentElement.dataset.theme *)
  toggle_label : option string    (* themeToggle aria-label *)
}.

Record NavSt := {
  nav_hidden : option string;     (* siteNav aria-hidden *)
  ham_expanded : option string;   (* hamburger aria-expanded *)
  ham_label : option string;      (* hamburger aria-label *)
  body_overflow : string          (* document.body.style.overflow *)
}.

Record DetailsEl := {
  d_open : bool;                  (* the open attribute *)
  d_in_nav : bool;                (* matches '.site-nav details' *)
  d_has_summary : bool
}.

Record DialogSt := {
  dlg_open : bool;                (* the open attribute *)
  dlg_closing : bool;             (* data-closing present *)
  dlg_prev_focus : option node;   (* element focused before showModal *)
  input_value : string            (* searchInput.value *)
}.

Inductive handler :=
  | HThemeToggle | HHamburger | HNavOverlay | HNavEscape | HCloseNav
  | HDocClickDetails | HDocEscapeDetails | HDetailsToggle (i : nat)
  | HSearchOpen | HCloseSearch | HDialogBackdrop | HDialogCancel
  | HHint (i : nat) | HAnimEnd | HSkipLink.

#[global] Instance handler_eq_dec : EqDecision handler.
Proof. solve_decision. Defined.

Record listener := {
  l_node : node;
  l_kind : event_kind;
  l_handler : handler;
  l_once : bool
}.

#[global] Instance listener_eq_dec : EqDecision listener.
Proof. solve_decision. Defined.

Inductive timer_cb := TFocusInput | TFallbackClose.

#[global] Instance timer_cb_eq_dec : EqDecision timer_cb.
Proof. solve_decision. Defined.

Record Page := {
  dom : Dom;
  prefers_dark : bool;   (* matchMedia('(prefers-color-scheme: dark)').matches *)
  storage : Storage;
  theme : ThemeSt;
  nav : NavSt;
  details : list DetailsEl;
  dialog : DialogSt;
  focus : option node;   (* document.activeElement *)
  listeners : list listener;      (* in registration order *)
  timers : list (Z * timer_cb);   (* deadline and callback, in registration order *)
  now : Z;                        (* milliseconds *)
  calls : list call;              (* native calls made so far, oldest first *)
  errors : nat                    (* exceptions that escaped a listener *)
}.

Definition with_storage (x : Storage) (p : Page) : Page :=
  {| dom := dom p; prefers_dark := prefers_dark p; storage := x; theme := theme p;
     nav := nav p; details := details p; dialog := dialog p; focus := focus p;
     listeners := listeners p; timers := timers p; now := now p; calls := calls p;
     errors := errors p |}.
Definition with_theme (x : ThemeSt) (p : Page) : Page :=
  {| dom := dom p; prefers_dark := prefers_dark p; storage := storage p; theme := x;
     nav := nav p; details := details p; dialog := dialog p; focus := focus p;
     listeners := listeners p; timers := timers p; now := now p; calls := calls p;
     errors := errors p |}.
Definition with_nav (x : NavSt) (p : Page) : Page :=
  {| dom := dom p; prefers_dark := prefers_dark p; storage := storage p; theme := theme p;
     nav := x; details := details p; dialog := dialog p; focus := focus p;
     listeners := listeners p; timers := timers p; now := now p; calls := calls p;
     errors := errors p |}.
Definition with_details (x : list DetailsEl) (p : Page) : Page :=
  {| dom := dom p; prefers_dark := prefers_dark p; storage := storage p; theme := theme p;
     nav := nav p; details := x; dialog := dialog p; focus := focus p;
     listeners := listeners p; timers := timers p; now := now p; calls := calls p;
     errors := errors p |}.
Definition with_dialog (x : DialogSt) (p : Page) : Page :=
  {| dom := dom p; prefers_dark := prefers_dark p; storage := storage p; theme := theme p;
     nav := nav p; details := details p; dialog := x; focus := focus p;
     listeners := listeners p; timers := timers p; now := now p; calls := calls p;
     errors := errors p |}.
Definition with_focus (x : option node) (p : Page) : Page :=
  {| dom := dom p; prefers_dark := prefers_dark p; storage := storage p; theme := theme p;
     nav := nav p; details := details p; dialog := dialog p; focus := x;
     listeners := listeners p; timers := timers p; now := now p; calls := calls p;
     errors := errors p |}.
Definition with_listeners (x : list listener) (p : Page) : Page :=
  {| dom := dom p; prefers_dark := prefers_dark p; storage := storage p; theme := theme p;
     nav := nav p; details := details p; dialog := dialog p; focus := focus p;
     listeners := x; timers := timers p; now := now p; calls := calls p;
     errors := errors p |}.
Definition with_timers (x : list (Z * timer_cb)) (p : Page) : Page :=
  {| dom := dom p; prefers_dark := prefers_dark p; storage := storage p; theme := theme p;
     nav := nav p; details := details p; dialog := dialog p; focus := focus p;
     listeners := listeners p; timers := x; now := now p; calls := calls p;
     errors := errors p |}.
Definition with_now (x : Z) (p : Page) : Page :=
  {| dom := dom p; prefers_dark := prefers_dark p; storage := storage p; theme := theme p;
     nav := nav p; details := details p; dialog := dialog p; focus := focus p;
     listeners := listeners p; timers := timers p; now := x; calls := calls p;
     errors := errors p |}.
Definition with_calls (x : list call) (p : Page) : Page :=
  {| dom := dom p; prefers_dark := prefers_dark p; storage := storage p; theme := theme p;
     nav := nav p; details := details p; dialog := dialog p; focus := focus p;
     listeners := listeners p; timers := timers p; now := now p; calls := x;
     errors := errors p |}.
Definition with_errors (x : nat) (p : Page) : Page :=
  {| dom := dom p; prefers_dark := prefers_dark p; storage := storage p; theme := theme p;
     nav := nav p; details := details p; dialog := dialog p; focus := focus p;
     listeners := listeners p; timers := timers p; now := now p; calls := calls p;
     errors := x |}.

(** A listener or the script itself either runs to its end or raises; the
    mutations made before the exception stay. *)
Inductive outcome :=
  | Done (p : Page)
  | Threw (p : Page).

Definition page_of (o : outcome) : Page :=
  match o with Done p | Threw p => p end.

Definition raised (o : outcome) : bool :=
  match o with Done _ => false | Threw _ => true end.

Definition and_then (o : outcome) (k : Page -> outcome) : outcome :=
  match o with
  | Done p => k p
  | Threw p => Threw p
  end.

Notation "o >>> k" := (and_then o k) (at level 61, left associativity).

(** ** Native primitives *)

Definition log (c : call) (p : Page) : Page := with_calls (calls p ++ [c]) p.

(** [el.focus()] *)
Definition do_focus (n : node) (p : Page) : Page :=
  log (CallFocus n) (with_focus (Some n) p).

(** [setTimeout(cb, delay)] *)
Definition setTimeout (cb : timer_cb) (delay : Z) (p : Page) : Page :=
  with_timers (timers p ++ [(now p + delay, cb)]) p.

(** [target.addEventListener(kind, h, { once })] *)
Definition addEventListener (n : node) (k : event_kind) (h : handler) (once : bool)
    (p : Page) : Page :=
  with_listeners (listeners p ++ [{| l_node := n; l_kind := k; l_handler := h; l_once := once |}]) p.

(** [dialog.showModal()]: sets the open attribute and remembers the
    focused element; a dialog that is already open as a modal is left as
    it is. *)
Definition showModal (p : Page) : Page :=
  let p := log CallShowModal p in
  if dlg_open (dialog p) then p
  else with_dialog {| dlg_open := true; dlg_closing := dlg_closing (dialog p);
                      dlg_prev_focus := focus p;
                      input_value := input_value (dialog p) |} p.

(** [dialog.close()]: without the open attribute the call returns at
    once; otherwise it removes the attribute and gives the focus back. *)
Definition native_close (p : Page) : Page :=
  let p := log CallClose p in
  if dlg_open (dialog p) then
    with_focus (dlg_prev_focus (dialog p))
      (with_dialog {| dlg_open := false; dlg_closing := dlg_closing (dialog p);
                      dlg_prev_focus := None;
                      input_value := input_value (dialog p) |} p)
  else p.

(** [searchDialog.dataset.closing = ''] and [delete searchDialog.dataset.closing] *)
Definition set_closing (b : bool) (p : Page) : Page :=
  with_dialog {| dlg_open := dlg_open (dialog p); dlg_closing := b;
                 dlg_prev_focus := dlg_prev_focus (dialog p);
                 input_value := input_value (dialog p) |} p.

Definition set_input_value (v : string) (p : Page) : Page :=
  with_dialog {| dlg_open := dlg_open (dialog p); dlg_closing := dlg_closing (dialog p);
                 dlg_prev_focus := dlg_prev_focus (dialog p);
                 input_value := v |} p.

(** ** Theme toggle (lines 56-77) *)

Definition set_theme_attr (v : option string) (p : Page) : Page :=
  with_theme {| theme_attr := v; toggle_label := toggle_label (theme p) |} p.

Definition set_toggle_label (v : option string) (p : Page) : Page :=
  with_theme {| theme_attr := theme_attr (theme p); toggle_label := v |} p.

(** Lines 56-59: the saved preference is read and, when truthy, applied. *)
Definition restore_theme (p : Page) : outcome :=
  match getItem "theme" (storage p) with
  | None => Threw p
  | Some savedTheme =>
      Done (if truthy savedTheme then set_theme_attr savedTheme p else p)
  end.

Definition is_dark (p : Page) : bool :=
  is_str (theme_attr (theme p)) "dark"
  || (negb (truthy (theme_attr (theme p))) && prefers_dark p).

(** Lines 63-76: the click listener of the theme toggle. *)
Definition theme_click (p : Page) : outcome :=
  let newTheme := if is_dark p then "light" else "dark" in
  let p := set_theme_attr (Some newTheme) p in
  match setItem "theme" newTheme (storage p) with
  | None => Threw p
  | Some st =>
      Done (set_toggle_label
              (Some (if String.eqb newTheme "dark" then label_to_light else label_to_dark))
              (with_storage st p))
  end.

(** ** Mobile navigation (lines 84-131) *)

Definition js_string_of_bool (b : bool) : string := if b then "true" else "false".

Definition label_open_nav : string := "Otevřít navigaci".
Definition label_close_nav : string := "Zavřít navigaci".

Definition nav_is_open (p : Page) : bool := is_str (nav_hidden (nav p)) "false".

(** Lines 88-101. *)
Definition hamburger_click (p : Page) : Page :=
  let isOpen := nav_is_open p in
  let newState := negb isOpen in
  with_nav {| nav_hidden := Some (js_string_of_bool (negb newState));
              ham_expanded := Some (js_string_of_bool newState);
              ham_label := Some (if newState then label_close_nav else label_open_nav);
              body_overflow := if newState then "hidden" else "" |} p.

(** Lines 125-130. *)
Definition closeNav (p : Page) : Page :=
  with_nav {| nav_hidden := Some "true";
              ham_expanded := Some "false";
              ham_label := Some label_open_nav;
              body_overflow := "" |} p.

(** Lines 104-110. *)
Definition nav_overlay_click (e : event) (p : Page) : Page :=
  if bool_decide (ev_target e = SiteNav) then closeNav p else p.

(** Lines 113-118. *)
Definition nav_keydown (e : event) (p : Page) : Page :=
  if String.eqb (ev_key e) "Escape" && nav_is_open p
  then do_focus Hamburger (closeNav p)
  else p.

(** ** Dropdown menus (lines 139-167) *)

(** [n.contains(e.target)]: the target is [n] or a descendant of [n]. *)
Definition contains (n : node) (e : event) : bool :=
  bool_decide (n ∈ ev_target e :: ev_ancestors e).

Definition close_details (d : DetailsEl) : DetailsEl :=
  {| d_open := false; d_in_nav := d_in_nav d; d_has_summary := d_has_summary d |}.

(** [details.removeAttribute('open')] on the i-th details element. *)
Definition remove_open (i : nat) (p : Page) : Page :=
  with_details (alter close_details i (details p)) p.

(** [querySelectorAll(sel).forEach(body)]: the selector is evaluated once,
    on the state at the call; the body runs on the current state. *)
Definition for_each_details (sel : nat -> DetailsEl -> bool)
    (body : nat -> DetailsEl -> Page -> Page) (p : Page) : Page :=
  fold_left (fun q '(i, d) => if sel i d then body i d q else q)
            (imap pair (details p)) p.

(** Lines 139-145. *)
Definition doc_click_details (e : event) (p : Page) : Page :=
  for_each_details (fun _ d => d_open d)
    (fun i _ q => if negb (contains (DetailsN i) e) then remove_open i q else q) p.

(** Lines 148-156. *)
Definition doc_keydown_details (e : event) (p : Page) : Page :=
  if String.eqb (ev_key e) "Escape" then
    for_each_details (fun _ d => d_open d)
      (fun i d q =>
         let q := remove_open i q in
         if d_has_summary d then do_focus (SummaryN i) q else q) p
  else p.

Definition details_is_open (i : nat) (p : Page) : bool :=
  match details p !! i with
  | Some d => d_open d
  | None => false
  end.

(** Lines 160-166: the toggle listener of the i-th details element. *)
Definition details_toggle (i : nat) (p : Page) : Page :=
  if details_is_open i p then
    for_each_details (fun _ d => d_in_nav d && d_open d)
      (fun j _ q => if bool_decide (j ≠ i) then remove_open j q else q) p
  else p.

(** ** Search dialog (lines 175-249) *)

(** Lines 183-195. *)
Definition search_open (p : Page) : Page :=
  setTimeout TFocusInput 50 (showModal p).

(** Line 194, the timer callback: [searchInput?.focus()]. *)
Definition focus_input (p : Page) : Page :=
  if has_search_input (dom p) then do_focus SearchInput p else p.

(** Lines 230-248. *)
Definition closeSearch (p : Page) : Page :=
  let p := set_closing true p in
  let p := addEventListener SearchDialog AnimationEnd HAnimEnd true p in
  setTimeout TFallbackClose 300 p.

(** Lines 234-238, the animation-end listener. *)
Definition anim_end (p : Page) : Page :=
  native_close (set_closing false p).

(** Lines 242-247, the fallback timer callback. *)
Definition fallback_close (p : Page) : Page :=
  if dlg_open (dialog p) then native_close (set_closing false p) else p.

Definition clicked_backdrop (e : event) (r : Rect) : bool :=
  (ev_clientX e <? r_left r) || (ev_clientX e >? r_right r)
  || (ev_clientY e <? r_top r) || (ev_clientY e >? r_bottom r).

(** Lines 201-210. *)
Definition dialog_click (e : event) (p : Page) : Page :=
  if clicked_backdrop e (dlg_rect (dom p)) then closeSearch p else p.

(** Lines 213-218. *)
Definition dialog_cancel (p : Page) : Page :=
  closeSearch (log CallPreventDefault p).

Definition hint_text (i : nat) (p : Page) : string :=
  default "" (hints (dom p) !! i).

(** Lines 222-227: the click listener of the i-th hint. *)
Definition hint_click (i : nat) (p : Page) : Page :=
  if has_search_input (dom p)
  then do_focus SearchInput (set_input_value (trim (hint_text i p)) p)
  else p.

(** ** Skip link (lines 264-271) *)

Definition skip_click (p : Page) : Page :=
  let p := log CallPreventDefault p in
  let headerH := default 0 (header_height (dom p)) in
  let top := main_top (dom p) + scroll_y (dom p) - headerH in
  do_focus MainEl (log (CallScrollTo top) p).

(** ** Listeners and timer callbacks by name *)

Definition run_handler (h : handler) (e : event) (p : Page) : outcome :=
  match h with
  | HThemeToggle => theme_click p
  | HHamburger => Done (hamburger_click p)
  | HNavOverlay => Done (nav_overlay_click e p)
  | HNavEscape => Done (nav_keydown e p)
  | HCloseNav => Done (closeNav p)
  | HDocClickDetails => Done (doc_click_details e p)
  | HDocEscapeDetails => Done (doc_keydown_details e p)
  | HDetailsToggle i => Done (details_toggle i p)
  | HSearchOpen => Done (search_open p)
  | HCloseSearch => Done (closeSearch p)
  | HDialogBackdrop => Done (dialog_click e p)
  | HDialogCancel => Done (dialog_cancel p)
  | HHint i => Done (hint_click i p)
  | HAnimEnd => Done (anim_end p)
  | HSkipLink => Done (skip_click p)
  end.

Definition run_timer (cb : timer_cb) (p : Page) : Page :=
  match cb with
  | TFocusInput => focus_input p
  | TFallbackClose => fallback_close p
  end.

(** ** The script body (lines 35-274) *)

Definition when (b : bool) (f : Page -> Page) (p : Page) : Page :=
  if b then f p else p.

Definition wire_theme (p : Page) : Page :=
  when (has_theme_toggle (dom p))
    (addEventListener ThemeToggle Click HThemeToggle false) p.

Definition wire_nav (p : Page) : Page :=
  when (has_hamburger (dom p) && has_site_nav (dom p))
    (fun p =>
       let p := addEventListener Hamburger Click HHamburger false p in
       let p := addEventListener SiteNav Click HNavOverlay false p in
       let p := addEventListener Document KeyDown HNavEscape false p in
       fold_left (fun q i => addEventListener (NavLink i) Click HCloseNav false q)
                 (seq 0 (nav_links (dom p))) p) p.

Definition wire_details (p : Page) : Page :=
  let p := addEventListener Document Click HDocClickDetails false p in
  let p := addEventListener Document KeyDown HDocEscapeDetails false p in
  for_each_details (fun _ d => d_in_nav d)
    (fun i _ q => addEventListener (DetailsN i) Toggle (HDetailsToggle i) false q) p.

Definition wire_search (p : Page) : Page :=
  when (has_search_dialog (dom p) && has_search_trigger (dom p))
    (fun p =>
       let p := addEventListener SearchTrigger Click HSearchOpen false p in
       let p := when (has_search_close (dom p))
                  (addEventListener SearchClose Click HCloseSearch false) p in
       let p := addEventListener SearchDialog Click HDialogBackdrop false p in
       let p := addEventListener SearchDialog Cancel HDialogCancel false p in
       fold_left (fun q i => addEventListener (Hint i) Click (HHint i) false q)
                 (seq 0 (length (hints (dom p)))) p) p.

Definition wire_skip (p : Page) : Page :=
  when (has_skip_link (dom p) && has_main (dom p))
    (addEventListener SkipLink Click HSkipLink false) p.

Definition main (p : Page) : outcome :=
  restore_theme p >>> (fun p =>
  Done (wire_skip (wire_search (wire_details (wire_nav (wire_theme p)))))).

(** ** Event dispatch *)

Definition bubbles (k : event_kind) : bool :=
  match k with
  | Click | KeyDown | AnimationEnd => true
  | Toggle | Cancel => false
  end.

(** The nodes whose listeners are invoked, in order: the target, its
    ancestors, the document. *)
Definition propagation (e : event) : list node :=
  if bubbles (ev_kind e)
  then filter (fun n => n ≠ Document) (ev_target e :: ev_ancestors e) ++ [Document]
  else [ev_target e].

Definition listens (n : node) (k : event_kind) (l : listener) : bool :=
  bool_decide (l_node l = n) && bool_decide (l_kind l = k).

(** Removes the first registration equal to [l]. *)
Fixpoint unregister (l : listener) (ls : list listener) : list listener :=
  match ls with
  | [] => []
  | x :: r => if bool_decide (x = l) then r else x :: unregister l r
  end.

(** One listener is invoked: a once-listener is removed first; an
    exception is reported and the dispatch goes on. *)
Definition invoke (e : event) (p : Page) (l : listener) : Page :=
  let p := if l_once l then with_listeners (unregister l (listeners p)) p else p in
  match run_handler (l_handler l) e p with
  | Done q => q
  | Threw q => with_errors (S (errors q)) q
  end.

(** The listeners of one node are taken as they are registered when the
    event reaches the node. *)
Definition dispatch_at (e : event) (p : Page) (n : node) : Page :=
  fold_left (invoke e) (filter (fun l => listens n (ev_kind e) l = true) (listeners p)) p.

Definition dispatch (e : event) (p : Page) : Page :=
  fold_left (dispatch_at e) (propagation e) p.

(** ** Timers and the passage of time *)

(** The timer that is due at time [t] and fires first: the earliest
    deadline, and among equal deadlines the one registered first. *)
Fixpoint next_due (t : Z) (ts : list (Z * timer_cb)) : option (Z * timer_cb) :=
  match ts with
  | [] => None
  | x :: r =>
      match next_due t r with
      | Some y => if (x.1 <=? t) && (x.1 <=? y.1) then Some x else Some y
      | None => if x.1 <=? t then Some x else None
      end
  end.

Fixpoint remove_timer (x : Z * timer_cb) (ts : list (Z * timer_cb)) : list (Z * timer_cb) :=
  match ts with
  | [] => []
  | y :: r => if bool_decide (y = x) then r else y :: remove_timer x r
  end.

(** Fires the due timers one at a time; [fuel] bounds the number fired. *)
Fixpoint fire_due (fuel : nat) (t : Z) (p : Page) : Page :=
  match fuel with
  | O => p
  | S fuel' =>
      match next_due t (timers p) with
      | None => p
      | Some x =>
          let p := with_now (Z.max (now p) x.1) (with_timers (remove_timer x (timers p)) p) in
          fire_due fuel' t (run_timer x.2 p)
      end
  end.

(** The clock reaches [t]: every timer due by then has fired.  No timer
    callback of the script sets a timer, so the number of pending timers
    is fuel enough. *)
Definition advance_to (t : Z) (p : Page) : Page :=
  let p := fire_due (length (timers p)) t p in
  with_now (Z.max (now p) t) p.

Inductive input :=
  | Deliver (e : event)      (* the browser dispatches an event *)
  | Elapse (dt : Z).         (* [dt] milliseconds pass *)

Definition step (i : input) (p : Page) : Page :=
  match i with
  | Deliver e => dispatch e p
  | Elapse dt => advance_to (now p + Z.max 0 dt) p
  end.

Definition run (ins : list input) (p : Page) : Page :=
  fold_left (fun q i => step i q) ins p.

(** ** A page to evaluate on *)

Definition sample_dom : Dom :=
  {| has_theme_toggle := true; has_hamburger := true; has_site_nav := true;
     nav_links := 2; has_search_dialog := true; has_search_trigger := true;
     has_search_close := true; has_search_input := true;
     hints := ["  HTML  "; "CSS"];
     has_skip_link := true; has_main := true; header_height := Some 64;
     main_top := 200; scroll_y := 10;
     dlg_rect := {| r_left := 100; r_right := 500; r_top := 100; r_bottom := 400 |} |}.

Definition working_store (m : gmap string string) : Storage :=
  {| st_items := m; st_get_throws := false; st_set_throws := false |}.

(** The page as the markup delivers it, before the script runs. *)
Definition fresh_page : Page :=
  {| dom := sample_dom; prefers_dark := true;
     storage := working_store ∅;
     theme := {| theme_attr := None; toggle_label := None |};
     nav := {| nav_hidden := Some "true"; ham_expanded := Some "false";
               ham_label := Some label_open_nav; body_overflow := "" |};
     details := [ {| d_open := false; d_in_nav := true; d_has_summary := true |};
                  {| d_open := false; d_in_nav := true; d_has_summary := true |};
                  {| d_open := false; d_in_nav := false; d_has_summary := true |} ];
     dialog := {| dlg_open := false; dlg_closing := false; dlg_prev_focus := None;
                  input_value := "" |};
     focus := None; listeners := []; timers := []; now := 0; calls := []; errors := 0 |}.

Definition click (n : node) (anc : list node) (x y : Z) : event :=
  {| ev_kind := Click; ev_target := n; ev_ancestors := anc; ev_key := "";
     ev_clientX := x; ev_clientY := y |}.

Definition keydown (n : node) (anc : list node) (key : string) : event :=
  {| ev_kind := KeyDown; ev_target := n; ev_ancestors := anc; ev_key := key;
     ev_clientX := 0; ev_clientY := 0 |}.

Definition plain (k : event_kind) (n : node) (anc : list node) : event :=
  {| ev_kind := k; ev_target := n; ev_ancestors := anc; ev_key := "";
     ev_clientX := 0; ev_clientY := 0 |}.

(** ** Observations used in the statements *)

Definition stored_theme (p : Page) : option string :=
  st_items (storage p) !! "theme".

(** The page after the theme toggle's listener, finished or not. *)
Definition theme_clicked (p : Page) : Page := page_of (theme_click p).

(** The sample page in a browser that denies access to the store, and with
    a store that refuses writes. *)
Definition denied_page : Page :=
  with_storage {| st_items := ∅; st_get_throws := true; st_set_throws := false |} fresh_page.

Definition readonly_page : Page :=
  with_storage {| st_items := ∅; st_get_throws := false; st_set_throws := true |} fresh_page.

Definition locked_page : Page :=
  with_storage {| st_items := ∅; st_get_throws := true; st_set_throws := true |} fresh_page.

(** The theme a click switches to. *)
Definition flipped (p : Page) : string := if is_dark p then "light" else "dark".

(** The sample page with "light" saved and applied. *)
Definition light_page : Page :=
  with_storage (working_store {["theme" := "light"]})
    (set_theme_attr (Some "light") fresh_page).

(** The nav panel as every close leaves it. *)
Definition nav_closed (p : Page) : Prop :=
  nav_hidden (nav p) = Some "true" /\
  ham_expanded (nav p) = Some "false" /\
  body_overflow (nav p) = "".

(** The number of details elements of the navigation that carry [open]. *)
Definition open_in_nav (p : Page) : nat :=
  length (filter (fun d => d_in_nav d && d_open d = true) (details p)).

(** The sample page with the first menu open and the second just opened. *)
Definition two_open_page : Page :=
  with_details [ {| d_open := true; d_in_nav := true; d_has_summary := true |};
                 {| d_open := true; d_in_nav := true; d_has_summary := true |};
                 {| d_open := true; d_in_nav := false; d_has_summary := true |} ]
    fresh_page.

(** The sample page after the script has run. *)
Definition booted_page : Page := page_of (main fresh_page).

(** The sample page with the dialog opened by its trigger and the focus
    timer gone by. *)
Definition dialog_open_page : Page :=
  run [Deliver (click SearchTrigger [] 10 10); Elapse 60] booted_page.

(** From there: the close button is activated, no animation ends, the
    fallback timer closes the dialog, and an animation end arrives late. *)
Definition late_animation_end : list input :=
  [Deliver (click SearchClose [SearchDialog] 300 300); Elapse 300;
   Deliver (plain AnimationEnd SearchDialog [])].

(** ** Histories of a page *)

(** The listener [closeSearch] attaches for the end of the exit animation. *)
Definition anim_listener : listener :=
  {| l_node := SearchDialog; l_kind := AnimationEnd; l_handler := HAnimEnd; l_once := true |}.

(** Where and how the script attaches each listener. *)
Definition placed (l : listener) : bool :=
  match l_handler l with
  | HThemeToggle => bool_decide (l_node l = ThemeToggle) && bool_decide (l_kind l = Click)
  | HHamburger => bool_decide (l_node l = Hamburger) && bool_decide (l_kind l = Click)
  | HNavOverlay => bool_decide (l_node l = SiteNav) && bool_decide (l_kind l = Click)
  | HNavEscape => bool_decide (l_node l = Document) && bool_decide (l_kind l = KeyDown)
  | HCloseNav =>
      match l_node l with NavLink _ => true | _ => false end
      && bool_decide (l_kind l = Click)
  | HDocClickDetails => bool_decide (l_node l = Document) && bool_decide (l_kind l = Click)
  | HDocEscapeDetails => bool_decide (l_node l = Document) && bool_decide (l_kind l = KeyDown)
  | HDetailsToggle i => bool_decide (l_node l = DetailsN i) && bool_decide (l_kind l = Toggle)
  | HSearchOpen => bool_decide (l_node l = SearchTrigger) && bool_decide (l_kind l = Click)
  | HCloseSearch => bool_decide (l_node l = SearchClose) && bool_decide (l_kind l = Click)
  | HDialogBackdrop => bool_decide (l_node l = SearchDialog) && bool_decide (l_kind l = Click)
  | HDialogCancel => bool_decide (l_node l = SearchDialog) && bool_decide (l_kind l = Cancel)
  | HHint i => bool_decide (l_node l = Hint i) && bool_decide (l_kind l = Click)
  | HAnimEnd => bool_decide (l_node l = SearchDialog) && bool_decide (l_kind l = AnimationEnd)
  | HSkipLink => bool_decide (l_node l = SkipLink) && bool_decide (l_kind l = Click)
  end.

(** A closed dialog is not rendered: the browser sends a cancel event to
    the dialog, and a click to the dialog, to something inside it or to
    its close button, only while the dialog is open. *)
Definition needs_open_dialog (e : event) : bool :=
  match ev_kind e with
  | Cancel => bool_decide (ev_target e = SearchDialog)
  | Click => contains SearchDialog e || contains SearchClose e
  | _ => false
  end.

Definition enabled (e : event) (p : Page) : bool :=
  negb (needs_open_dialog e) || dlg_open (dialog p).

Fixpoint admissible (ins : list input) (p : Page) : bool :=
  match ins with
  | [] => true
  | i :: r =>
      match i with Deliver e => enabled e p | Elapse _ => true end
      && admissible r (step i p)
  end.

(** The page before the script runs: nothing attached, no timer pending,
    the dialog closed and unmarked. *)
Definition pristine (p : Page) : Prop :=
  listeners p = [] /\ timers p = [] /\
  dlg_open (dialog p) = false /\ dlg_closing (dialog p) = false.

(** The pages a visit can be in: the script has run on a pristine page,
    then events arrived and time passed. *)
Inductive reachable : Page -> Prop :=
  | reach_boot p0 : pristine p0 -> reachable (page_of (main p0))
  | reach_step p i : reachable p -> admissible [i] p = true -> reachable (step i p).

Definition attached (n : node) (k : event_kind) (h : handler) (p : Page) : bool :=
  bool_decide ({| l_node := n; l_kind := k; l_handler := h; l_once := false |} ∈ listeners p).

(** The three close requests: a click that reaches the close button, a
    click on the dialog at coordinates outside its box, and a cancel event
    at the dialog; each with its listener attached. *)
Definition close_request (e : event) (p : Page) : bool :=
  match ev_kind e with
  | Click =>
      (contains SearchClose e && attached SearchClose Click HCloseSearch p)
      || (contains SearchDialog e && clicked_backdrop e (dlg_rect (dom p))
          && attached SearchDialog Click HDialogBackdrop p)
  | Cancel =>
      bool_decide (ev_target e = SearchDialog)
      && attached SearchDialog Cancel HDialogCancel p
  | _ => false
  end.

(** The part of the page that decides what the dialog does next. *)
Record Core := {
  c_dom : Dom;
  c_now : Z;
  c_listeners : list listener;
  c_timers : list (Z * timer_cb);
  c_open : bool;
  c_closing : bool
}.

Definition core (p : Page) : Core :=
  {| c_dom := dom p; c_now := now p; c_listeners := listeners p; c_timers := timers p;
     c_open := dlg_open (dialog p); c_closing := dlg_closing (dialog p) |}.

Definition core_close (c : Core) : Core :=
  {| c_dom := c_dom c; c_now := c_now c;
     c_listeners := c_listeners c ++ [anim_listener];
     c_timers := c_timers c ++ [(c_now c + 300, TFallbackClose)];
     c_open := c_open c; c_closing := true |}.

(** What each listener does to that part. *)
Definition core_step (h : handler) (e : event) (c : Core) : Core :=
  match h with
  | HSearchOpen =>
      {| c_dom := c_dom c; c_now := c_now c; c_listeners := c_listeners c;
         c_timers := c_timers c ++ [(c_now c + 50, TFocusInput)];
         c_open := true; c_closing := c_closing c |}
  | HCloseSearch | HDialogCancel => core_close c
  | HDialogBackdrop =>
      if clicked_backdrop e (dlg_rect (c_dom c)) then core_close c else c
  | HAnimEnd =>
      {| c_dom := c_dom c; c_now := c_now c; c_listeners := c_listeners c;
         c_timers := c_timers c; c_open := false; c_closing := false |}
  | _ => c
  end.

Definition core_unregister (l : listener) (c : Core) : Core :=
  if l_once l then
    {| c_dom := c_dom c; c_now := c_now c;
       c_listeners := unregister l (c_listeners c);
       c_timers := c_timers c; c_open := c_open c; c_closing := c_closing c |}
  else c.

(** The closing marker is only ever on an open dialog. *)
Definition marker_ok (p : Page) : Prop :=
  dlg_open (dialog p) = false -> dlg_closing (dialog p) = false.

Definition dialog_closed (p : Page) : Prop :=
  dlg_open (dialog p) = false /\ dlg_closing (dialog p) = false.

(** A close request on the sample page and what follows it while the
    fallback delay runs, with no animation end among it. *)
Definition close_button_click : event := click SearchClose [SearchDialog] 300 300.

Definition no_animation : list input :=
  [Elapse 100; Deliver (click (Hint 0) [SearchDialog] 300 300); Elapse 100].

(** Every listener is where the script puts it. *)
Definition all_placed (p : Page) : Prop :=
  forall l, l ∈ listeners p -> placed l = true.

(** The event is one the browser sends in this state. *)
Definition dialog_guard (e : event) (p : Page) : Prop :=
  needs_open_dialog e = true -> dlg_open (dialog p) = true.

(** What every history keeps. *)
Definition dialog_inv (p : Page) : Prop := all_placed p /\ marker_ok p.

(** The script has only added its own listeners and left the dialog as [d0]. *)
Definition wired_as (d0 : DialogSt) (q : Page) : Prop := all_placed q /\ dialog q = d0.

(** The sample page with the nav panel opened by the hamburger, and the
    same with the first menu of the navigation open as well. *)
Definition nav_open_page : Page :=
  dispatch (click Hamburger [] 5 5) booted_page.

Definition nav_and_menu_open_page : Page :=
  with_details [ {| d_open := true; d_in_nav := true; d_has_summary := true |};
                 {| d_open := false; d_in_nav := true; d_has_summary := true |};
                 {| d_open := false; d_in_nav := false; d_has_summary := true |} ]
    nav_open_page.

(** ** The listeners the script attaches, written out *)

Definition attach (n : node) (k : event_kind) (h : handler) : listener :=
  {| l_node := n; l_kind := k; l_handler := h; l_once := false |}.

Definition theme_wiring (d : Dom) : list listener :=
  if has_theme_toggle d then [attach ThemeToggle Click HThemeToggle] else [].

Definition nav_wiring (d : Dom) : list listener :=
  if has_hamburger d && has_site_nav d then
    [attach Hamburger Click HHamburger; attach SiteNav Click HNavOverlay;
     attach Document KeyDown HNavEscape]
    ++ map (fun i => attach (NavLink i) Click HCloseNav) (seq 0 (nav_links d))
  else [].

Definition details_wiring (ds : list DetailsEl) : list listener :=
  [attach Document Click HDocClickDetails; attach Document KeyDown HDocEscapeDetails]
  ++ map (fun x : nat * DetailsEl => attach (DetailsN x.1) Toggle (HDetailsToggle x.1))
         (filter (fun x : nat * DetailsEl => d_in_nav x.2 = true) (imap pair ds)).

Definition search_wiring (d : Dom) : list listener :=
  if has_search_dialog d && has_search_trigger d then
    [attach SearchTrigger Click HSearchOpen]
    ++ (if has_search_close d then [attach SearchClose Click HCloseSearch] else [])
    ++ [attach SearchDialog Click HDialogBackdrop; attach SearchDialog Cancel HDialogCancel]
    ++ map (fun i => attach (Hint i) Click (HHint i)) (seq 0 (length (hints d)))
  else [].

Definition skip_wiring (d : Dom) : list listener :=
  if has_skip_link d && has_main d then [attach SkipLink Click HSkipLink] else [].

Definition wiring (d : Dom) (ds : list DetailsEl) : list listener :=
  theme_wiring d ++ nav_wiring d ++ details_wiring ds ++ search_wiring d ++ skip_wiring d.

(** The page after lines 56-59 when the store can be read. *)
Definition restored (p : Page) : Page :=
  if truthy (stored_theme p) then set_theme_attr (stored_theme p) p else p.

(** Only the animation-end listener is attached with [once]. *)
Definition tidy (p : Page) : Prop :=
  forall l, l ∈ listeners p ->
    placed l = true /\ (l_once l = true <-> l_handler l = HAnimEnd).

(** The elements a listener's feature needs are on the page. *)
Definition feature_present (d : Dom) (ds : list DetailsEl) (l : listener) : bool :=
  match l_handler l with
  | HThemeToggle => has_theme_toggle d
  | HHamburger | HNavOverlay | HNavEscape => has_hamburger d && has_site_nav d
  | HCloseNav =>
      has_hamburger d && has_site_nav d
      && match l_node l with NavLink i => (i <? nav_links d)%nat | _ => false end
  | HDocClickDetails | HDocEscapeDetails => true
  | HDetailsToggle i =>
      match ds !! i with Some x => d_in_nav x | None => false end
  | HSearchOpen | HDialogBackdrop | HDialogCancel =>
      has_search_dialog d && has_search_trigger d
  | HCloseSearch => has_search_dialog d && has_search_trigger d && has_search_close d
  | HHint i =>
      has_search_dialog d && has_search_trigger d && (i <? length (hints d))%nat
  | HAnimEnd => false
  | HSkipLink => has_skip_link d && has_main d
  end.

(** The listener [l'] can be invoked by a dispatch of [e] on a tidy page. *)
Definition fires (e : event) (l : listener) : Prop :=
  placed l = true /\ (l_once l = true <-> l_handler l = HAnimEnd) /\
  l_node l ∈ propagation e /\ l_kind l = ev_kind e.

(** The four attributes of the nav feature for the panel open or closed. *)
Definition nav_state (b : bool) : NavSt :=
  {| nav_hidden := Some (js_string_of_bool (negb b));
     ham_expanded := Some (js_string_of_bool b);
     ham_label := Some (if b then label_close_nav else label_open_nav);
     body_overflow := if b then "hidden" else "" |}.

Definition nav_synced (p : Page) : Prop := exists b, nav p = nav_state b.

(** No animation ends in the history [ins]. *)
Definition no_animation_end (ins : list input) : bool :=
  forallb (fun i => match i with
                    | Deliver e => negb (bool_decide (ev_kind e = AnimationEnd))
                    | Elapse _ => true
                    end) ins.

(** The sample dialog just after the close button was activated. *)
Definition closing_page : Page := dispatch close_button_click dialog_open_page.

(** The exit animation ends in time, and the trigger is activated again
    before the fallback delay of the close request is over. *)
Definition closed_and_reopened : list input :=
  [Elapse 100; Deliver (plain AnimationEnd SearchDialog []); Elapse 50;
   Deliver (click SearchTrigger [] 10 10)].

(** No animation ends, the fallback timer closes the dialog, and the
    trigger opens it again. *)
Definition closed_by_timer_and_reopened : list input :=
  [Elapse 300; Deliver (click SearchTrigger [] 10 10); Elapse 60].

(** The listeners that stay for the life of the page: all but the
    once-listeners. *)
Definition own_listeners (p : Page) : list listener :=
  filter (fun l => l_once l = false) (listeners p).

(** The listeners of the document for a key press, as the script
    attaches them. *)
Definition keydown_listeners (d : Dom) : list listener :=
  (if has_hamburger d && has_site_nav d
   then [attach Document KeyDown HNavEscape] else [])
  ++ [attach Document KeyDown HDocEscapeDetails].

(** The script has run to its end on this document: what is attached is
    its wiring, in order, and the once-listeners of pending closes. *)
Definition set_up (p : Page) : Prop :=
  tidy p /\ exists ds, own_listeners p = wiring (dom p) ds.

Definition nav_present (p : Page) : Prop :=
  has_hamburger (dom p) = true /\ has_site_nav (dom p) = true.


(** A hint text with a no-break space in front and an ideographic space
    and a line feed behind: the bytes C2 A0, "CSS", E3 80 80, 0A. *)
Definition padded_hint : string :=
  String (ascii_of_nat 194) (String (ascii_of_nat 160)
    ("CSS" +:+ String (ascii_of_nat 227) (String (ascii_of_nat 128)
                 (String (ascii_of_nat 128) (String (ascii_of_nat 10) EmptyString))))).

(** * Properties *)

(** ** Theme toggle *)

Lemma theme_click_done p :
  st_set_throws (storage p) = false ->
  theme_click p =
    Done (set_toggle_label
            (Some (if is_dark p then label_to_dark else label_to_light))
            (with_storage
               {| st_items := <["theme" := if is_dark p then "light" else "dark"]>
                                (st_items (storage p));
                  st_get_throws := st_get_throws (storage p);
                  st_set_throws := false |}
               (set_theme_attr (Some (if is_dark p then "light" else "dark")) p))).
Proof.
  intros Hw. unfold theme_click, setItem. cbn [storage set_theme_attr with_theme].
  rewrite Hw. destruct (is_dark p); reflexivity.
Qed.

Lemma theme_click_threw p :
  st_set_throws (storage p) = true ->
  theme_click p = Threw (set_theme_attr (Some (if is_dark p then "light" else "dark")) p).
Proof.
  intros Hw. unfold theme_click, setItem. cbn [storage set_theme_attr with_theme].
  now rewrite Hw.
Qed.

Lemma theme_clicked_attr p :
  theme_attr (theme (theme_clicked p)) = Some (if is_dark p then "light" else "dark").
Proof.
  unfold theme_clicked.
  destruct (st_set_throws (storage p)) eqn:Hw.
  - rewrite theme_click_threw by assumption. reflexivity.
  - rewrite theme_click_done by assumption. reflexivity.
Qed.

Lemma theme_clicked_stored p :
  st_set_throws (storage p) = false ->
  stored_theme (theme_clicked p) = Some (if is_dark p then "light" else "dark").
Proof.
  intros Hw. unfold theme_clicked, stored_theme. rewrite theme_click_done by assumption.
  cbn. apply lookup_insert_eq.
Qed.

Lemma theme_clicked_set_throws p :
  st_set_throws (storage (theme_clicked p)) = st_set_throws (storage p).
Proof.
  unfold theme_clicked.
  destruct (st_set_throws (storage p)) eqn:Hw.
  - rewrite theme_click_threw by assumption. exact Hw.
  - rewrite theme_click_done by assumption. reflexivity.
Qed.

Lemma is_dark_after_click p :
  is_dark (theme_clicked p) = negb (is_dark p).
Proof.
  unfold is_dark at 1. rewrite theme_clicked_attr.
  destruct (is_dark p); reflexivity.
Qed.

(** C2, as stated, fails.  Where the store raises on read, the script
    raises at line 56 and attaches no listener at all, while the same page
    with a readable, empty store is fully wired; where the store raises on
    write, the toggle's listener raises and never reaches the label. *)
Lemma storage_failure_not_tolerated :
  raised (main denied_page) = true /\
  listeners (page_of (main denied_page)) = [] /\
  length (listeners (page_of (main fresh_page))) = 17%nat /\
  raised (theme_click readonly_page) = true /\
  toggle_label (theme (page_of (theme_click readonly_page))) = None /\
  stored_theme (page_of (theme_click readonly_page)) = None.
Proof. vm_compute. repeat split; reflexivity. Qed.

(** C2, amended: a storage error is not caught.  A read that raises on
    load ends the script there, with the page untouched and no listener
    attached; a write that raises on toggle ends the listener after the
    document attribute was flipped, with the store and the label left as
    they were. *)
Theorem storage_errors_propagate (p : Page) :
  (st_get_throws (storage p) = true -> main p = Threw p) /\
  (st_set_throws (storage p) = true ->
     theme_click p = Threw (set_theme_attr (Some (flipped p)) p)).
Proof.
  split; intros H.
  - unfold main, restore_theme, getItem. now rewrite H.
  - now apply theme_click_threw.
Qed.

Lemma storage_errors_propagate_witness :
  st_get_throws (storage locked_page) = true /\
  st_set_throws (storage locked_page) = true /\
  main locked_page = Threw locked_page /\
  theme_click locked_page = Threw (set_theme_attr (Some (flipped locked_page)) locked_page).
Proof.
  split; [reflexivity|]. split; [reflexivity|].
  split.
  - apply (proj1 (storage_errors_propagate locked_page)). reflexivity.
  - apply (proj2 (storage_errors_propagate locked_page)). reflexivity.
Defined.

(** C3, as stated, fails: with the attribute unset and nothing stored, two
    clicks leave "dark" in both places. *)
Lemma toggle_twice_unset_not_restored :
  theme_attr (theme fresh_page) = None /\
  stored_theme fresh_page = None /\
  theme_attr (theme (theme_clicked (theme_clicked fresh_page))) = Some "dark" /\
  stored_theme (theme_clicked (theme_clicked fresh_page)) = Some "dark".
Proof. vm_compute. repeat split; reflexivity. Qed.

Lemma flipped_cases p : flipped p = "light" \/ flipped p = "dark".
Proof. unfold flipped. destruct (is_dark p); auto. Qed.

Lemma flipped_twice p : flipped (theme_clicked p) = if is_dark p then "dark" else "light".
Proof. unfold flipped. rewrite is_dark_after_click. destruct (is_dark p); reflexivity. Qed.

Lemma is_dark_of_attr p t :
  theme_attr (theme p) = Some t -> t = "light" \/ t = "dark" ->
  is_dark p = String.eqb t "dark".
Proof.
  intros Ha Ht. unfold is_dark. rewrite Ha.
  destruct Ht as [-> | ->]; reflexivity.
Qed.

(** C3, amended: two clicks bring the document attribute and the stored
    value back exactly when the attribute starts as "light" or "dark" and
    the stored value equals it (the writes succeeding). *)
Theorem toggle_twice_restores (p : Page) :
  st_set_throws (storage p) = false ->
  let p2 := theme_clicked (theme_clicked p) in
  (theme_attr (theme p2) = theme_attr (theme p) /\ stored_theme p2 = stored_theme p)
  <->
  (exists t, (t = "light" \/ t = "dark") /\
             theme_attr (theme p) = Some t /\ stored_theme p = Some t).
Proof.
  intros Hw p2.
  assert (Ha : theme_attr (theme p2) = Some (flipped (theme_clicked p)))
    by apply theme_clicked_attr.
  assert (Hs : stored_theme p2 = Some (flipped (theme_clicked p))).
  { apply theme_clicked_stored. now rewrite theme_clicked_set_throws. }
  rewrite Ha, Hs. split.
  - intros [H1 H2]. exists (flipped (theme_clicked p)).
    split; [apply flipped_cases|]. split; congruence.
  - intros (t & Ht & H1 & H2). rewrite H1, H2, flipped_twice.
    rewrite (is_dark_of_attr p t H1 Ht).
    destruct Ht as [-> | ->]; split; reflexivity.
Qed.

Lemma toggle_twice_restores_witness :
  st_set_throws (storage light_page) = false /\
  theme_attr (theme (theme_clicked (theme_clicked light_page))) = theme_attr (theme light_page) /\
  stored_theme (theme_clicked (theme_clicked light_page)) = stored_theme light_page.
Proof.
  split; [reflexivity|].
  apply (proj2 (toggle_twice_restores light_page eq_refl)).
  exists "light". split; [left; reflexivity|]. split; reflexivity.
Defined.

(** C4: from an unset attribute under a dark OS preference, the first
    click sets and stores "light", the second sets and stores "dark". *)
Theorem toggle_from_unset_dark (p : Page) :
  theme_attr (theme p) = None ->
  prefers_dark p = true ->
  st_set_throws (storage p) = false ->
  exists p1 p2,
    theme_click p = Done p1 /\
    theme_attr (theme p1) = Some "light" /\ stored_theme p1 = Some "light" /\
    theme_click p1 = Done p2 /\
    theme_attr (theme p2) = Some "dark" /\ stored_theme p2 = Some "dark".
Proof.
  intros Ha Hd Hw.
  assert (Hdark : is_dark p = true) by (unfold is_dark; now rewrite Ha, Hd).
  pose proof (theme_click_done p Hw) as H1. rewrite Hdark in H1.
  eexists. eexists. split; [exact H1|].
  split; [reflexivity|]. split; [apply lookup_insert_eq|].
  split; [apply theme_click_done; reflexivity|].
  split; [reflexivity|]. apply lookup_insert_eq.
Qed.

Lemma toggle_from_unset_dark_witness :
  exists p1 p2,
    theme_click fresh_page = Done p1 /\
    theme_attr (theme p1) = Some "light" /\ stored_theme p1 = Some "light" /\
    theme_click p1 = Done p2 /\
    theme_attr (theme p2) = Some "dark" /\ stored_theme p2 = Some "dark".
Proof. apply (toggle_from_unset_dark fresh_page); reflexivity. Defined.

(** C10: after a click whose write succeeds, whatever the attribute and
    the stored value were before, the attribute is "light" or "dark", the
    stored value is the attribute, and the label names the other theme. *)
Theorem theme_click_invariant (p : Page) :
  st_set_throws (storage p) = false ->
  exists q t,
    theme_click p = Done q /\
    (t = "light" \/ t = "dark") /\
    theme_attr (theme q) = Some t /\
    stored_theme q = Some t /\
    toggle_label (theme q) =
      Some (if String.eqb t "dark" then "Přepnout na světlý motiv"
            else "Přepnout na tmavý motiv").
Proof.
  intros Hw. eexists. exists (flipped p).
  split; [apply theme_click_done; assumption|].
  split; [apply flipped_cases|].
  split; [reflexivity|]. split; [apply lookup_insert_eq|].
  unfold flipped. cbn. destruct (is_dark p); reflexivity.
Qed.

Lemma theme_click_invariant_witness :
  exists q t,
    theme_click light_page = Done q /\
    (t = "light" \/ t = "dark") /\
    theme_attr (theme q) = Some t /\
    stored_theme q = Some t /\
    toggle_label (theme q) =
      Some (if String.eqb t "dark" then "Přepnout na světlý motiv"
            else "Přepnout na tmavý motiv").
Proof. apply (theme_click_invariant light_page). reflexivity. Defined.

(** ** Mobile navigation *)

Lemma closeNav_closed p : nav_closed (closeNav p).
Proof. repeat split. Qed.

(** The three close listeners of the nav panel, each run on its own: the
    click on the panel itself, Escape while the panel is open, and the
    click on a navigation link end with aria-hidden "true", aria-expanded
    "false" and the body overflow cleared; the Escape listener also
    focuses the hamburger. *)
Theorem nav_close_triggers (p : Page) (e : event) :
  (ev_target e = SiteNav ->
     exists q, run_handler HNavOverlay e p = Done q /\ nav_closed q) /\
  (ev_key e = "Escape" -> nav_is_open p = true ->
     exists q, run_handler HNavEscape e p = Done q /\ nav_closed q /\
               focus q = Some Hamburger) /\
  (exists q, run_handler HCloseNav e p = Done q /\ nav_closed q).
Proof.
  split; [|split].
  - intros Ht. exists (closeNav p). split; [|apply closeNav_closed].
    cbn. unfold nav_overlay_click. now rewrite bool_decide_eq_true_2.
  - intros Hk Ho. exists (do_focus Hamburger (closeNav p)).
    split; [|split; [apply closeNav_closed | reflexivity]].
    cbn. unfold nav_keydown. now rewrite Hk, Ho.
  - exists (closeNav p). split; [reflexivity | apply closeNav_closed].
Qed.

Lemma nav_close_triggers_witness :
  let p := hamburger_click fresh_page in
  (exists q, run_handler HNavOverlay (click SiteNav [] 5 5) p = Done q /\ nav_closed q) /\
  (exists q, run_handler HNavEscape (keydown Hamburger [] "Escape") p = Done q /\
             nav_closed q /\ focus q = Some Hamburger) /\
  (exists q, run_handler HCloseNav (click (NavLink 0) [SiteNav] 5 5) p = Done q /\ nav_closed q).
Proof.
  intros p. split; [|split].
  - apply (proj1 (nav_close_triggers p (click SiteNav [] 5 5))). reflexivity.
  - apply (proj1 (proj2 (nav_close_triggers p (keydown Hamburger [] "Escape"))));
      reflexivity.
  - apply (proj2 (proj2 (nav_close_triggers p (click (NavLink 0) [SiteNav] 5 5)))).
Defined.

(** C6: closing twice is closing once, and closing a panel that the
    script has closed (by a close, or by the hamburger from the open
    state) changes nothing at all. *)
Theorem closeNav_idempotent (p : Page) :
  closeNav (closeNav p) = closeNav p /\
  (nav_is_open p = true -> closeNav (hamburger_click p) = hamburger_click p).
Proof.
  split; [reflexivity|].
  intros Ho. unfold hamburger_click. rewrite Ho. reflexivity.
Qed.

Lemma closeNav_idempotent_witness :
  let p := hamburger_click fresh_page in
  nav_is_open p = true /\
  closeNav (closeNav p) = closeNav p /\
  closeNav (hamburger_click p) = hamburger_click p.
Proof.
  intros p. split; [reflexivity|]. split.
  - apply (proj1 (closeNav_idempotent p)).
  - apply (proj2 (closeNav_idempotent p)). reflexivity.
Defined.

(** ** Dropdown menus *)

Lemma for_each_details_prefix (sel : nat -> DetailsEl -> bool) body
    (c : nat -> DetailsEl -> bool) :
  (forall j d q, details (body j d q) =
                 if c j d then alter close_details j (details q) else details q) ->
  forall l r q,
    details q = l ++ r ->
    details (fold_left (fun (q : Page) '((i, d) : nat * DetailsEl) =>
                          if sel i d then body i d q else q)
                       (imap pair l) q)
    = imap (fun j d => if sel j d && c j d then close_details d else d) l ++ r.
Proof.
  intros Hbody l. induction l as [|x l IH] using rev_ind; intros r q Hq.
  - exact Hq.
  - rewrite !imap_app, fold_left_app. cbn [imap fold_left].
    rewrite Nat.add_0_r.
    specialize (IH (x :: r) q). rewrite <- app_assoc in Hq. specialize (IH Hq).
    set (q' := fold_left _ _ q) in *.
    rewrite <- app_assoc. cbn [app].
    destruct (sel (length l) x); cbn [andb]; [|exact IH].
    rewrite Hbody, IH. destruct (c (length l) x); [|reflexivity].
    rewrite alter_app_r_alt by (rewrite length_imap; lia).
    rewrite length_imap, Nat.sub_diag. reflexivity.
Qed.

Lemma for_each_details_spec sel body (c : nat -> DetailsEl -> bool) p :
  (forall j d q, details (body j d q) =
                 if c j d then alter close_details j (details q) else details q) ->
  details (for_each_details sel body p)
  = imap (fun j d => if sel j d && c j d then close_details d else d) (details p).
Proof.
  intros Hbody. unfold for_each_details.
  rewrite (for_each_details_prefix sel body c Hbody (details p) [] p)
    by (now rewrite app_nil_r).
  apply app_nil_r.
Qed.

Lemma details_toggle_spec i p :
  details_is_open i p = true ->
  details (details_toggle i p)
  = imap (fun j d => if d_in_nav d && d_open d && bool_decide (j ≠ i)
                     then close_details d else d) (details p).
Proof.
  intros Ho. unfold details_toggle. rewrite Ho.
  apply (for_each_details_spec _ _ (fun j _ => bool_decide (j ≠ i))).
  intros j d q. destruct (bool_decide (j ≠ i)); reflexivity.
Qed.

Lemma none_satisfies {A} (P : A -> Prop) `{!forall x, Decision (P x)} (l : list A) :
  (forall j x, l !! j = Some x -> ¬ P x) -> filter P l = [].
Proof.
  induction l as [|x l IH]; intros Hall; [reflexivity|].
  rewrite filter_cons_False by (apply (Hall 0%nat x); reflexivity).
  apply IH. intros j y Hy. apply (Hall (S j) y). exact Hy.
Qed.

Lemma at_most_one_satisfies {A} (P : A -> Prop) `{!forall x, Decision (P x)}
    (l : list A) (i : nat) :
  (forall j x, j ≠ i -> l !! j = Some x -> ¬ P x) ->
  (length (filter P l) <= 1)%nat.
Proof.
  revert i. induction l as [|x l IH]; intros i Hall; [cbn; lia|].
  destruct i as [|i].
  - rewrite filter_cons.
    assert (Hnil : filter P l = []).
    { apply none_satisfies. intros j y Hy. apply (Hall (S j) y); [lia | exact Hy]. }
    rewrite Hnil. destruct (decide (P x)); cbn; lia.
  - rewrite filter_cons_False by (apply (Hall 0%nat x); [lia | reflexivity]).
    apply (IH i). intros j y Hj Hy. apply (Hall (S j) y); [lia | exact Hy].
Qed.

(** C7: when the toggle listener of a details element that has just
    opened has run, that element is still open, no other details element
    of the navigation is, and so at most one of them is open. *)
Theorem accordion_single_open (p : Page) (i : nat) :
  details_is_open i p = true ->
  let q := details_toggle i p in
  details_is_open i q = true /\
  (forall j d, j ≠ i -> details q !! j = Some d -> d_in_nav d = true ->
               d_open d = false) /\
  (open_in_nav q <= 1)%nat.
Proof.
  intros Ho q.
  assert (Hq : details q = imap (fun j d => if d_in_nav d && d_open d && bool_decide (j ≠ i)
                                            then close_details d else d) (details p))
    by (apply details_toggle_spec; exact Ho).
  assert (Hothers : forall j d, j ≠ i -> details q !! j = Some d -> d_in_nav d = true ->
                                d_open d = false).
  { intros j d Hj Hd Hnav. rewrite Hq, list_lookup_imap in Hd.
    destruct (details p !! j) as [d0|]; [|discriminate].
    cbn in Hd. injection Hd as <-.
    rewrite (bool_decide_eq_true_2 _ Hj), andb_true_r in *.
    destruct (d_in_nav d0 && d_open d0) eqn:Hb; [reflexivity|].
    rewrite Hnav in Hb. exact Hb. }
  split; [|split].
  - unfold details_is_open in *. rewrite Hq, list_lookup_imap.
    destruct (details p !! i) as [d0|]; [|discriminate]. cbn.
    rewrite bool_decide_eq_false_2 by (intros H; now apply H).
    now rewrite andb_false_r.
  - exact Hothers.
  - unfold open_in_nav. apply (at_most_one_satisfies _ _ i).
    intros j d Hj Hd Hp. apply andb_prop in Hp as [Hnav Hop].
    rewrite (Hothers j d Hj Hd Hnav) in Hop. discriminate.
Qed.

Lemma accordion_single_open_witness :
  details_is_open 1 two_open_page = true /\
  details_is_open 1 (details_toggle 1 two_open_page) = true /\
  (forall j d, j ≠ 1%nat -> details (details_toggle 1 two_open_page) !! j = Some d ->
               d_in_nav d = true -> d_open d = false) /\
  (open_in_nav (details_toggle 1 two_open_page) <= 1)%nat.
Proof. split; [reflexivity|]. apply (accordion_single_open two_open_page 1). reflexivity. Defined.

Example accordion_on_sample :
  map d_open (details (details_toggle 1 two_open_page)) = [false; true; true].
Proof. reflexivity. Qed.

(** ** Search dialog: the hint listener *)

(** The listener of a hint, run on its own, writes the hint's trimmed
    text into the input and focuses the input; the dialog's open attribute
    and closing marker, the pending timers and the registered listeners
    stay as they are, and the only native call made is that focus. *)
Theorem hint_click_fills_input (p : Page) (i : nat) (text : string) (e : event) :
  has_search_input (dom p) = true ->
  hints (dom p) !! i = Some text ->
  exists q,
    run_handler (HHint i) e p = Done q /\
    input_value (dialog q) = trim text /\
    focus q = Some SearchInput /\
    dlg_open (dialog q) = dlg_open (dialog p) /\
    dlg_closing (dialog q) = dlg_closing (dialog p) /\
    timers q = timers p /\
    listeners q = listeners p /\
    calls q = calls p ++ [CallFocus SearchInput].
Proof.
  intros Hin Ht. exists (hint_click i p). split; [reflexivity|].
  unfold hint_click, hint_text. rewrite Hin, Ht. cbn.
  repeat split.
Qed.

Lemma hint_click_fills_input_witness :
  exists q,
    run_handler (HHint 0) (click (Hint 0) [] 0 0) dialog_open_page = Done q /\
    input_value (dialog q) = trim "  HTML  " /\
    focus q = Some SearchInput /\
    dlg_open (dialog q) = dlg_open (dialog dialog_open_page) /\
    dlg_closing (dialog q) = dlg_closing (dialog dialog_open_page) /\
    timers q = timers dialog_open_page /\
    listeners q = listeners dialog_open_page /\
    calls q = calls dialog_open_page ++ [CallFocus SearchInput].
Proof.
  apply (hint_click_fills_input dialog_open_page 0 "  HTML  " (click (Hint 0) [] 0 0));
    reflexivity.
Defined.

Example hint_text_is_trimmed : trim "  HTML  " = "HTML".
Proof. reflexivity. Qed.

(** ** Search dialog: the two cleanup paths *)

Lemma fallback_close_closed p :
  dlg_open (dialog p) = false -> fallback_close p = p.
Proof. intros H. unfold fallback_close. now rewrite H. Qed.

Lemma anim_end_closed p :
  dlg_open (dialog p) = false -> anim_end p = log CallClose (set_closing false p).
Proof. intros H. unfold anim_end, native_close. cbn. now rewrite H. Qed.

Lemma anim_end_open p :
  dlg_open (dialog p) = true -> fallback_close p = anim_end p.
Proof. intros H. unfold fallback_close. now rewrite H. Qed.

Lemma anim_end_not_open p : dlg_open (dialog (anim_end p)) = false.
Proof.
  unfold anim_end, native_close. cbn.
  destruct (dlg_open (dialog p)) eqn:H; cbn; [reflexivity | exact H].
Qed.

Lemma anim_end_not_closing p : dlg_closing (dialog (anim_end p)) = false.
Proof.
  unfold anim_end, native_close. cbn.
  destruct (dlg_open (dialog p)); reflexivity.
Qed.

(** C1, as stated, fails: the animation-end listener makes no check.  In
    the claim's own scenario (the fallback timer has closed the dialog and
    an animation end arrives afterwards) the native close primitive is
    called a second time, on a dialog that is not open; and on a closed
    dialog that carries the marker the listener clears the marker where
    the timer callback leaves the page alone. *)
Lemma anim_end_does_not_check_open :
  dlg_open (dialog (run [Deliver (click SearchClose [SearchDialog] 300 300); Elapse 300]
                        dialog_open_page)) = false /\
  calls (run late_animation_end dialog_open_page)
    = [CallShowModal; CallFocus SearchInput; CallClose; CallClose] /\
  dlg_closing (dialog (anim_end (set_closing true fresh_page))) = false /\
  fallback_close (set_closing true fresh_page) = set_closing true fresh_page.
Proof. vm_compute. repeat split; reflexivity. Qed.

Lemma set_closing_false_id p :
  dlg_closing (dialog p) = false -> set_closing false p = p.
Proof.
  destruct p as [? ? ? ? ? ? [o c f v] ? ? ? ? ? ?]. cbn. intros ->. reflexivity.
Qed.

(** C1, amended: closing twice is safe.  The fallback timer callback
    checks the open attribute and leaves a closed dialog alone.  The
    animation-end listener does not check; on a dialog that the other
    path has closed its whole effect is one more call of the native close
    primitive, which returns at once. *)
Theorem close_twice_is_safe (p : Page) :
  (dlg_open (dialog p) = false -> fallback_close p = p) /\
  fallback_close (anim_end p) = anim_end p /\
  (dlg_open (dialog p) = true ->
     anim_end (fallback_close p) = log CallClose (fallback_close p)) /\
  anim_end (anim_end p) = log CallClose (anim_end p).
Proof.
  assert (Hlate : anim_end (anim_end p) = log CallClose (anim_end p)).
  { rewrite (anim_end_closed (anim_end p)) by apply anim_end_not_open.
    rewrite set_closing_false_id by apply anim_end_not_closing. reflexivity. }
  split; [apply fallback_close_closed|].
  split; [apply fallback_close_closed, anim_end_not_open|].
  split; [|exact Hlate].
  intros Ho. rewrite (anim_end_open p Ho). exact Hlate.
Qed.

Lemma close_twice_is_safe_witness :
  dlg_open (dialog dialog_open_page) = true /\
  dlg_open (dialog fresh_page) = false /\
  fallback_close fresh_page = fresh_page /\
  anim_end (fallback_close dialog_open_page)
    = log CallClose (fallback_close dialog_open_page).
Proof.
  split; [reflexivity|]. split; [reflexivity|]. split.
  - apply (proj1 (close_twice_is_safe fresh_page)). reflexivity.
  - apply (proj1 (proj2 (proj2 (close_twice_is_safe dialog_open_page)))). reflexivity.
Defined.

(** ** Search dialog: what a history can do to it *)

Lemma fold_left_invariant {A B} (f : A -> B -> A) (P : A -> Prop) (l : list B) (a : A) :
  P a -> (forall a x, x ∈ l -> P a -> P (f a x)) -> P (fold_left f l a).
Proof.
  revert a. induction l as [|x l IH]; intros a Ha Hf; [exact Ha|].
  cbn. apply IH.
  - apply Hf; [left | exact Ha].
  - intros b y Hy. apply Hf. now right.
Qed.

Lemma fold_left_establish {A B} (f : A -> B -> A) (I Q : A -> Prop)
    (l : list B) (x : B) (a : A) :
  x ∈ l -> I a ->
  (forall a y, I a -> I (f a y) \/ Q (f a y)) ->
  (forall a y, Q a -> Q (f a y)) ->
  (forall a, I a -> Q (f a x)) ->
  Q (fold_left f l a).
Proof.
  intros Hx Ha HI HQ Hhit. revert a Ha.
  induction l as [|y l IH]; intros a Ha; [inversion Hx|].
  cbn. apply elem_of_cons in Hx as [<- | Hx].
  - apply fold_left_invariant; [now apply Hhit | intros; now apply HQ].
  - destruct (HI a y Ha) as [H | H].
    + now apply IH.
    + apply fold_left_invariant; [exact H | intros; now apply HQ].
Qed.

Lemma for_each_details_frame {X} (f : Page -> X) sel body p :
  (forall j d q, f (body j d q) = f q) ->
  f (for_each_details sel body p) = f p.
Proof.
  intros Hbody. unfold for_each_details.
  apply (fold_left_invariant _ (fun q => f q = f p)); [reflexivity|].
  intros q [j d] _ Hq. destruct (sel j d); [|exact Hq].
  now rewrite Hbody.
Qed.

Lemma run_handler_core h e p :
  core (page_of (run_handler h e p)) = core_step h e (core p).
Proof.
  destruct h; cbn [run_handler page_of core_step]; try reflexivity.
  - unfold theme_click, setItem. cbn.
    destruct (st_set_throws (storage p)); reflexivity.
  - unfold nav_overlay_click. destruct (bool_decide _); reflexivity.
  - unfold nav_keydown. destruct (_ && _); reflexivity.
  - unfold doc_click_details. apply for_each_details_frame.
    intros j d q. destruct (negb _); reflexivity.
  - unfold doc_keydown_details. destruct (String.eqb _ _); [|reflexivity].
    apply for_each_details_frame.
    intros j d q. destruct (d_has_summary d); reflexivity.
  - unfold details_toggle. destruct (details_is_open i p); [|reflexivity].
    apply for_each_details_frame.
    intros j d q. destruct (bool_decide _); reflexivity.
  - unfold search_open, showModal. cbn.
    destruct (dlg_open (dialog p)) eqn:Ho; cbn; unfold core; cbn; now rewrite ?Ho.
  - unfold dialog_click. cbn. destruct (clicked_backdrop _ _); reflexivity.
  - unfold hint_click. destruct (has_search_input _); reflexivity.
  - unfold anim_end, native_close. cbn.
    destruct (dlg_open (dialog p)) eqn:Ho; cbn; unfold core; cbn; now rewrite ?Ho.
Qed.

Lemma invoke_core e p l :
  core (invoke e p l) = core_step (l_handler l) e (core_unregister l (core p)).
Proof.
  unfold invoke, core_unregister.
  set (p' := if l_once l then _ else p).
  assert (Hp' : core p' = if l_once l
                          then {| c_dom := dom p; c_now := now p;
                                  c_listeners := unregister l (listeners p);
                                  c_timers := timers p; c_open := dlg_open (dialog p);
                                  c_closing := dlg_closing (dialog p) |}
                          else core p)
    by (subst p'; destruct (l_once l); reflexivity).
  cbn [core c_dom c_now c_listeners c_timers c_open c_closing] in *.
  fold (core p) in *. rewrite <- Hp', <- run_handler_core.
  destruct (run_handler _ _ _); reflexivity.
Qed.

Lemma unregister_subset l ls x : x ∈ unregister l ls -> x ∈ ls.
Proof.
  induction ls as [|y ls IH]; cbn; [trivial|].
  destruct (bool_decide (y = l)).
  - intros H. now right.
  - intros H. apply elem_of_cons in H as [-> | H]; [left | right; auto].
Qed.

Lemma unregister_other l ls x : x ≠ l -> x ∈ ls -> x ∈ unregister l ls.
Proof.
  intros Hne. induction ls as [|y ls IH]; cbn; [trivial|].
  intros H. apply elem_of_cons in H as [-> | H].
  - rewrite bool_decide_eq_false_2 by exact Hne. left.
  - destruct (bool_decide (y = l)); [exact H | right; auto].
Qed.

Lemma core_step_dom_now h e c :
  c_dom (core_step h e c) = c_dom c /\ c_now (core_step h e c) = c_now c.
Proof.
  destruct h; cbn; try (split; reflexivity).
  destruct (clicked_backdrop _ _); split; reflexivity.
Qed.

Lemma core_unregister_dom_now l c :
  c_dom (core_unregister l c) = c_dom c /\ c_now (core_unregister l c) = c_now c.
Proof. unfold core_unregister. destruct (l_once l); split; reflexivity. Qed.

Lemma invoke_dom e p l : dom (invoke e p l) = dom p.
Proof.
  change (c_dom (core (invoke e p l)) = c_dom (core p)). rewrite invoke_core.
  rewrite (proj1 (core_step_dom_now _ _ _)). apply core_unregister_dom_now.
Qed.

Lemma invoke_now e p l : now (invoke e p l) = now p.
Proof.
  change (c_now (core (invoke e p l)) = c_now (core p)). rewrite invoke_core.
  rewrite (proj2 (core_step_dom_now _ _ _)). apply core_unregister_dom_now.
Qed.

Lemma core_step_timers h e c x : x ∈ c_timers c -> x ∈ c_timers (core_step h e c).
Proof.
  intros Hx. destruct h; cbn; try exact Hx;
    try (apply elem_of_app; now left).
  destruct (clicked_backdrop _ _); [cbn; apply elem_of_app; now left | exact Hx].
Qed.

Lemma core_step_listeners h e c x :
  x ∈ c_listeners c -> x ∈ c_listeners (core_step h e c).
Proof.
  intros Hx. destruct h; cbn; try exact Hx;
    try (apply elem_of_app; now left).
  destruct (clicked_backdrop _ _); [cbn; apply elem_of_app; now left | exact Hx].
Qed.

Lemma core_step_listeners_inv h e c x :
  x ∈ c_listeners (core_step h e c) -> x ∈ c_listeners c \/ x = anim_listener.
Proof.
  destruct h; cbn; auto;
    try (intros H; apply elem_of_app in H as [H | H]; [now left | right];
         apply list_elem_of_singleton in H; exact H).
  destruct (clicked_backdrop _ _); cbn; auto.
  intros H; apply elem_of_app in H as [H | H]; [now left | right].
  apply list_elem_of_singleton in H; exact H.
Qed.

Lemma invoke_timers e p l x : x ∈ timers p -> x ∈ timers (invoke e p l).
Proof.
  intros Hx. change (x ∈ c_timers (core (invoke e p l))). rewrite invoke_core.
  apply core_step_timers. unfold core_unregister. destruct (l_once l); exact Hx.
Qed.

Lemma invoke_keeps_listener e p l l0 :
  l_once l0 = false -> l0 ∈ listeners p -> l0 ∈ listeners (invoke e p l).
Proof.
  intros Hn Hl. change (l0 ∈ c_listeners (core (invoke e p l))). rewrite invoke_core.
  apply core_step_listeners. unfold core_unregister.
  destruct (l_once l) eqn:Ho; [cbn | exact Hl].
  apply unregister_other; [|exact Hl]. intros ->. congruence.
Qed.

Lemma invoke_all_placed e p l : all_placed p -> all_placed (invoke e p l).
Proof.
  intros Hp x Hx. change (x ∈ c_listeners (core (invoke e p l))) in Hx.
  rewrite invoke_core in Hx. apply core_step_listeners_inv in Hx as [Hx | ->];
    [|reflexivity].
  apply Hp. unfold core_unregister in Hx. destruct (l_once l); [cbn in Hx | exact Hx].
  now apply unregister_subset in Hx.
Qed.

Lemma enabled_guard e p : enabled e p = true <-> dialog_guard e p.
Proof.
  unfold enabled, dialog_guard.
  destruct (needs_open_dialog e), (dlg_open (dialog p)); cbn; intuition congruence.
Qed.

Lemma propagation_click_contains e n :
  ev_kind e = Click -> n ∈ propagation e -> n ≠ Document -> contains n e = true.
Proof.
  intros Hk Hn Hd. unfold propagation in Hn. rewrite Hk in Hn. cbn [bubbles] in Hn.
  apply elem_of_app in Hn as [Hn | Hn].
  - apply list_elem_of_filter in Hn as [_ Hn]. now apply bool_decide_eq_true_2.
  - apply list_elem_of_singleton in Hn. contradiction.
Qed.

Lemma propagation_cancel e n :
  ev_kind e = Cancel -> n ∈ propagation e -> n = ev_target e.
Proof.
  intros Hk Hn. unfold propagation in Hn. rewrite Hk in Hn. cbn [bubbles] in Hn.
  now apply list_elem_of_singleton in Hn.
Qed.

Lemma close_listener_needs_open e l :
  placed l = true -> l_node l ∈ propagation e -> l_kind l = ev_kind e ->
  match l_handler l with
  | HCloseSearch | HDialogBackdrop | HDialogCancel => needs_open_dialog e = true
  | HAnimEnd => needs_open_dialog e = false
  | _ => True
  end.
Proof.
  intros Hp Hn Hk. unfold placed in Hp.
  destruct (l_handler l); try exact I;
    apply andb_prop in Hp as [Hnode Hkind];
    apply bool_decide_eq_true_1 in Hnode; apply bool_decide_eq_true_1 in Hkind;
    rewrite Hkind in Hk; symmetry in Hk; unfold needs_open_dialog; rewrite Hk;
    rewrite Hnode in Hn.
  - rewrite (propagation_click_contains e SearchClose Hk Hn) by discriminate.
    apply orb_true_r.
  - now rewrite (propagation_click_contains e SearchDialog Hk Hn) by discriminate.
  - apply bool_decide_eq_true_2. symmetry. now apply propagation_cancel.
  - reflexivity.
Qed.

Lemma invoke_marker e p l :
  placed l = true -> l_node l ∈ propagation e -> l_kind l = ev_kind e ->
  dialog_guard e p -> marker_ok p ->
  marker_ok (invoke e p l) /\ dialog_guard e (invoke e p l).
Proof.
  intros Hp Hn Hk Hg Hm.
  pose proof (close_listener_needs_open e l Hp Hn Hk) as Hneed.
  unfold marker_ok, dialog_guard in *.
  change (dlg_open (dialog (invoke e p l))) with (c_open (core (invoke e p l))).
  change (dlg_closing (dialog (invoke e p l))) with (c_closing (core (invoke e p l))).
  rewrite invoke_core.
  assert (Hu : c_open (core_unregister l (core p)) = dlg_open (dialog p) /\
               c_closing (core_unregister l (core p)) = dlg_closing (dialog p) /\
               c_dom (core_unregister l (core p)) = dom p)
    by (unfold core_unregister; destruct (l_once l); repeat split).
  destruct Hu as (Ho & Hc & Hd).
  destruct (l_handler l); cbn [core_step core_close c_open c_closing];
    rewrite ?Ho, ?Hc; try (split; assumption).
  - split; [discriminate | reflexivity].
  - specialize (Hg Hneed). split; [congruence | trivial].
  - destruct (clicked_backdrop _ _); cbn [core_close c_open c_closing];
      rewrite ?Ho, ?Hc; [|split; assumption].
    specialize (Hg Hneed). split; [congruence | trivial].
  - specialize (Hg Hneed). split; [congruence | trivial].
  - split; [reflexivity | congruence].
Qed.

Lemma dispatch_invariant (P : Page -> Prop) (e : event) (p : Page) :
  (forall q, P q -> all_placed q) ->
  (forall q l, P q -> placed l = true -> l_node l ∈ propagation e ->
               l_kind l = ev_kind e -> P (invoke e q l)) ->
  P p -> P (dispatch e p).
Proof.
  intros Hpl Hstep Hp. unfold dispatch.
  apply fold_left_invariant; [exact Hp|].
  intros q n Hn Hq. unfold dispatch_at.
  apply fold_left_invariant; [exact Hq|].
  intros q' l Hl Hq'. apply list_elem_of_filter in Hl as [Hlis Hl].
  unfold listens in Hlis. apply andb_prop in Hlis as [H1 H2].
  apply bool_decide_eq_true_1 in H1. apply bool_decide_eq_true_1 in H2.
  apply Hstep; [exact Hq' | now apply (Hpl q) | now rewrite H1 | exact H2].
Qed.

Lemma dispatch_dialog_inv e p :
  enabled e p = true -> dialog_inv p -> dialog_inv (dispatch e p).
Proof.
  intros He Hi.
  enough (H : dialog_inv (dispatch e p) /\ dialog_guard e (dispatch e p)) by apply H.
  apply (dispatch_invariant (fun q => dialog_inv q /\ dialog_guard e q)).
  - intros q [[H _] _]. exact H.
  - intros q l [[Hpl Hm] Hg] Hp Hn Hk.
    destruct (invoke_marker e q l Hp Hn Hk Hg Hm) as [Hm' Hg'].
    split; [split|]; [now apply invoke_all_placed | exact Hm' | exact Hg'].
  - split; [exact Hi | now apply enabled_guard].
Qed.

(** *** Timers *)

Lemma next_due_some t ts y :
  next_due t ts = Some y -> y ∈ ts /\ y.1 <= t.
Proof.
  revert y. induction ts as [|x r IH]; cbn; intros y H; [discriminate|].
  destruct (next_due t r) as [z|].
  - destruct (IH z eq_refl) as [Hz Hzt].
    destruct ((x.1 <=? t) && (x.1 <=? z.1)) eqn:Hb; injection H as <-.
    + apply andb_prop in Hb as [Hb _]. split; [left | lia].
    + split; [now right | exact Hzt].
  - destruct (x.1 <=? t) eqn:Hb; [|discriminate]. injection H as <-.
    split; [left | lia].
Qed.

Lemma next_due_none t ts x :
  next_due t ts = None -> x ∈ ts -> t < x.1.
Proof.
  induction ts as [|y r IH]; cbn; intros H Hx; [inversion Hx|].
  destruct (next_due t r) as [z|].
  - destruct ((y.1 <=? t) && (y.1 <=? z.1)); discriminate.
  - destruct (y.1 <=? t) eqn:Hb; [discriminate|].
    apply elem_of_cons in Hx as [-> | Hx]; [lia | now apply IH].
Qed.

Lemma remove_timer_other y ts x : x ≠ y -> x ∈ ts -> x ∈ remove_timer y ts.
Proof.
  intros Hne. induction ts as [|z r IH]; cbn; [trivial|].
  intros H. apply elem_of_cons in H as [-> | H].
  - rewrite bool_decide_eq_false_2 by exact Hne. left.
  - destruct (bool_decide (z = y)); [exact H | right; auto].
Qed.

Lemma remove_timer_length y ts :
  y ∈ ts -> S (length (remove_timer y ts)) = length ts.
Proof.
  induction ts as [|z r IH]; cbn; intros H; [inversion H|].
  destruct (bool_decide (z = y)) eqn:Hb; [reflexivity|].
  apply bool_decide_eq_false_1 in Hb.
  apply elem_of_cons in H as [-> | H]; [contradiction|].
  cbn. now rewrite IH.
Qed.

Lemma run_timer_frame cb p :
  dom (run_timer cb p) = dom p /\ now (run_timer cb p) = now p /\
  listeners (run_timer cb p) = listeners p /\ timers (run_timer cb p) = timers p.
Proof.
  destruct cb; cbn.
  - unfold focus_input. destruct (has_search_input _); repeat split.
  - unfold fallback_close, native_close. cbn.
    destruct (dlg_open (dialog p)); repeat split.
Qed.

Lemma fallback_close_closes p : marker_ok p -> dialog_closed (fallback_close p).
Proof.
  intros Hm. unfold fallback_close.
  destruct (dlg_open (dialog p)) eqn:Ho.
  - split; [apply anim_end_not_open | apply anim_end_not_closing].
  - split; [exact Ho | now apply Hm].
Qed.

Lemma dialog_closed_marker_ok p : dialog_closed p -> marker_ok p.
Proof. intros [_ H] _. exact H. Qed.

Lemma run_timer_marker_ok cb p : marker_ok p -> marker_ok (run_timer cb p).
Proof.
  intros Hm. destruct cb; cbn.
  - unfold focus_input. destruct (has_search_input _); exact Hm.
  - now apply dialog_closed_marker_ok, fallback_close_closes.
Qed.

Lemma run_timer_closed cb p : dialog_closed p -> dialog_closed (run_timer cb p).
Proof.
  intros Hc. destruct cb; cbn.
  - unfold focus_input. destruct (has_search_input _); exact Hc.
  - rewrite fallback_close_closed; [exact Hc | apply Hc].
Qed.

(** Firing the due timers keeps what a dispatch keeps. *)
Lemma fire_due_invariant (P : Page -> Prop) n t p :
  (forall q x, P q -> P (run_timer x.2 (with_now (Z.max (now q) x.1)
                                         (with_timers (remove_timer x (timers q)) q)))) ->
  P p -> P (fire_due n t p).
Proof.
  intros Hstep. revert p. induction n as [|n IH]; intros p Hp; cbn; [exact Hp|].
  destruct (next_due t (timers p)) as [x|]; [|exact Hp].
  apply IH, Hstep, Hp.
Qed.

Lemma fire_due_dialog_inv n t p : dialog_inv p -> dialog_inv (fire_due n t p).
Proof.
  apply fire_due_invariant. intros q x [Hpl Hm]. split.
  - intros l Hl. rewrite (proj1 (proj2 (proj2 (run_timer_frame _ _)))) in Hl.
    now apply Hpl.
  - apply run_timer_marker_ok. exact Hm.
Qed.

Lemma fire_due_keeps_later n t p x :
  t < x.1 -> x ∈ timers p -> x ∈ timers (fire_due n t p).
Proof.
  intros Hlt. revert p. induction n as [|n IH]; intros p Hx; cbn; [exact Hx|].
  destruct (next_due t (timers p)) as [y|] eqn:Hy; [|exact Hx].
  apply IH. rewrite (proj2 (proj2 (proj2 (run_timer_frame _ _)))). cbn.
  apply remove_timer_other; [|exact Hx].
  apply next_due_some in Hy as [_ Hy]. intros ->. lia.
Qed.

Lemma fire_due_now n t p : now p <= t -> now (fire_due n t p) <= t.
Proof.
  revert p. induction n as [|n IH]; intros p Hp; cbn; [exact Hp|].
  destruct (next_due t (timers p)) as [y|] eqn:Hy; [|exact Hp].
  apply IH. rewrite (proj1 (proj2 (run_timer_frame _ _))). cbn.
  apply next_due_some in Hy as [_ Hy]. lia.
Qed.

Lemma fire_due_now_mono n t p : now p <= now (fire_due n t p).
Proof.
  revert p. induction n as [|n IH]; intros p; cbn; [lia|].
  destruct (next_due t (timers p)) as [y|] eqn:Hy; [|lia].
  etransitivity; [|apply IH]. rewrite (proj1 (proj2 (run_timer_frame _ _))). cbn. lia.
Qed.

(** With fuel for every pending timer, a due fallback timer fires, and
    once it has fired the dialog is closed and unmarked. *)
Lemma fire_due_closes n t p :
  (length (timers p) <= n)%nat -> marker_ok p ->
  (exists d, d <= t /\ (d, TFallbackClose) ∈ timers p) \/ dialog_closed p ->
  dialog_closed (fire_due n t p).
Proof.
  revert p. induction n as [|n IH]; intros p Hlen Hm Hcase; cbn.
  - destruct Hcase as [(d & _ & Hd) | Hc]; [|exact Hc].
    destruct (timers p); [inversion Hd | cbn in Hlen; lia].
  - destruct (next_due t (timers p)) as [y|] eqn:Hy.
    + pose proof (next_due_some _ _ _ Hy) as [Hyin Hyt].
      set (p' := with_now _ (with_timers (remove_timer y (timers p)) p)).
      assert (Hm' : marker_ok p') by exact Hm.
      apply IH.
      * rewrite (proj2 (proj2 (proj2 (run_timer_frame _ _)))). cbn.
        pose proof (remove_timer_length y (timers p) Hyin). lia.
      * now apply run_timer_marker_ok.
      * destruct y as [dy [|]]; cbn [snd run_timer].
        -- destruct Hcase as [(d & Hd & Hin) | Hc].
           ++ left. exists d. split; [exact Hd|].
              unfold focus_input. destruct (has_search_input _); cbn;
                (apply remove_timer_other; [discriminate | exact Hin]).
           ++ right. unfold focus_input. destruct (has_search_input _); exact Hc.
        -- right. now apply fallback_close_closes.
    + destruct Hcase as [(d & Hd & Hin) | Hc]; [|exact Hc].
      pose proof (next_due_none _ _ _ Hy Hin). cbn in *. lia.
Qed.

(** *** The script leaves a well-formed page *)

Section Wiring.
Variable d0 : DialogSt.

Lemma add_listener_wired n k h q :
  placed {| l_node := n; l_kind := k; l_handler := h; l_once := false |} = true ->
  wired_as d0 q -> wired_as d0 (addEventListener n k h false q).
Proof.
  intros Hp [Hall Hd]. split; [|exact Hd].
  intros l Hl. cbn in Hl. apply elem_of_app in Hl as [Hl | Hl]; [now apply Hall|].
  apply list_elem_of_singleton in Hl. now subst l.
Qed.

Lemma wire_theme_wired q : wired_as d0 q -> wired_as d0 (wire_theme q).
Proof.
  intros H. unfold wire_theme, when. destruct (has_theme_toggle _); [|exact H].
  now apply add_listener_wired.
Qed.

Lemma wire_nav_wired q : wired_as d0 q -> wired_as d0 (wire_nav q).
Proof.
  intros H. unfold wire_nav, when. destruct (_ && _); [|exact H].
  apply fold_left_invariant.
  - repeat (apply add_listener_wired; [reflexivity|]). exact H.
  - intros a i _ Ha. now apply add_listener_wired.
Qed.

Lemma wire_details_wired q : wired_as d0 q -> wired_as d0 (wire_details q).
Proof.
  intros H. unfold wire_details, for_each_details.
  apply fold_left_invariant.
  - repeat (apply add_listener_wired; [reflexivity|]). exact H.
  - intros a [i d] _ Ha. destruct (d_in_nav d); [|exact Ha].
    apply add_listener_wired; [|exact Ha].
    cbn. now rewrite !bool_decide_eq_true_2.
Qed.

Lemma wire_search_wired q : wired_as d0 q -> wired_as d0 (wire_search q).
Proof.
  intros H. unfold wire_search, when. destruct (_ && _); [|exact H].
  apply fold_left_invariant.
  - repeat (apply add_listener_wired; [reflexivity|]).
    cbn. destruct (has_search_close _); [|now apply add_listener_wired].
    repeat (apply add_listener_wired; [reflexivity|]). exact H.
  - intros a i _ Ha. apply add_listener_wired; [|exact Ha].
    cbn. now rewrite !bool_decide_eq_true_2.
Qed.

Lemma wire_skip_wired q : wired_as d0 q -> wired_as d0 (wire_skip q).
Proof.
  intros H. unfold wire_skip, when. destruct (_ && _); [|exact H].
  now apply add_listener_wired.
Qed.

Lemma main_wired q : wired_as d0 q -> wired_as d0 (page_of (main q)).
Proof.
  intros H. unfold main, restore_theme.
  destruct (getItem "theme" (storage q)) as [saved|]; cbn; [|exact H].
  apply wire_skip_wired, wire_search_wired, wire_details_wired, wire_nav_wired,
    wire_theme_wired.
  destruct (truthy saved); exact H.
Qed.
End Wiring.

Lemma main_dialog_inv p0 : pristine p0 -> dialog_inv (page_of (main p0)).
Proof.
  intros (Hl & _ & Ho & Hc).
  destruct (main_wired (dialog p0) p0) as [Hall Hd].
  - split; [|reflexivity]. intros l Hl'. rewrite Hl in Hl'. inversion Hl'.
  - split; [exact Hall|]. unfold marker_ok. now rewrite Hd.
Qed.

Lemma advance_to_dialog_inv t p : dialog_inv p -> dialog_inv (advance_to t p).
Proof.
  intros H. unfold advance_to.
  apply (fire_due_dialog_inv (length (timers p)) t) in H. exact H.
Qed.

Lemma step_dialog_inv i p :
  admissible [i] p = true -> dialog_inv p -> dialog_inv (step i p).
Proof.
  intros Ha Hi. destruct i as [e | dt]; cbn in *.
  - apply dispatch_dialog_inv; [|exact Hi]. now rewrite andb_true_r in Ha.
  - now apply advance_to_dialog_inv.
Qed.

Lemma reachable_dialog_inv p : reachable p -> dialog_inv p.
Proof.
  induction 1 as [p0 Hp | p i _ IH Ha].
  - now apply main_dialog_inv.
  - now apply step_dialog_inv.
Qed.

Lemma admissible_cons i r p :
  admissible (i :: r) p = true <-> admissible [i] p = true /\ admissible r (step i p) = true.
Proof.
  cbn. rewrite andb_true_r. apply andb_true_iff.
Qed.

Lemma run_dialog_inv ins p :
  admissible ins p = true -> dialog_inv p -> dialog_inv (run ins p).
Proof.
  revert p. induction ins as [|i r IH]; intros p Ha Hi; [exact Hi|].
  apply admissible_cons in Ha as [Ha1 Ha2].
  cbn. apply IH; [exact Ha2 | now apply step_dialog_inv].
Qed.

Lemma run_reachable ins p :
  admissible ins p = true -> reachable p -> reachable (run ins p).
Proof.
  revert p. induction ins as [|i r IH]; intros p Ha Hr; [exact Hr|].
  apply admissible_cons in Ha as [Ha1 Ha2].
  cbn. apply IH; [exact Ha2 | now apply reach_step].
Qed.

(** *** A close request and its fallback timer *)

Lemma dispatch_always (P : Page -> Prop) (e : event) (p : Page) :
  (forall q l, P q -> P (invoke e q l)) -> P p -> P (dispatch e p).
Proof.
  intros Hstep Hp. unfold dispatch.
  apply fold_left_invariant; [exact Hp|].
  intros q n _ Hq. unfold dispatch_at.
  apply fold_left_invariant; [exact Hq|].
  intros q' l _ Hq'. now apply Hstep.
Qed.

Lemma dispatch_now e p : now (dispatch e p) = now p.
Proof.
  apply (dispatch_always (fun q => now q = now p)); [|reflexivity].
  intros q l Hq. now rewrite invoke_now.
Qed.

Lemma dispatch_timers e p x : x ∈ timers p -> x ∈ timers (dispatch e p).
Proof.
  apply (dispatch_always (fun q => x ∈ timers q)).
  intros q l Hq. now apply invoke_timers.
Qed.

Lemma advance_to_now t p : now p <= t -> now (advance_to t p) = t.
Proof.
  intros H. unfold advance_to. cbn.
  pose proof (fire_due_now (length (timers p)) t p H). lia.
Qed.

Lemma step_now_mono i p : now p <= now (step i p).
Proof.
  destruct i as [e | dt]; cbn [step].
  - rewrite dispatch_now. lia.
  - rewrite advance_to_now; lia.
Qed.

Lemma run_now_mono ins p : now p <= now (run ins p).
Proof.
  revert p. induction ins as [|i r IH]; intros p; cbn; [lia|].
  etransitivity; [apply step_now_mono | apply IH].
Qed.

Lemma step_keeps_later i p x :
  now (step i p) < x.1 -> x ∈ timers p -> x ∈ timers (step i p).
Proof.
  destruct i as [e | dt]; cbn [step]; intros Hlt Hx.
  - now apply dispatch_timers.
  - rewrite advance_to_now in Hlt by lia.
    unfold advance_to. cbn. now apply fire_due_keeps_later.
Qed.

Lemma run_keeps_later ins p x :
  now (run ins p) < x.1 -> x ∈ timers p -> x ∈ timers (run ins p).
Proof.
  revert p. induction ins as [|i r IH]; intros p Hlt Hx; [exact Hx|].
  change (run (i :: r) p) with (run r (step i p)) in *.
  apply IH; [exact Hlt|].
  apply step_keeps_later; [|exact Hx].
  pose proof (run_now_mono r (step i p)). lia.
Qed.

Lemma dispatch_at_establish (I Q : Page -> Prop) (e : event) (l : listener) (q : Page) :
  (forall q, I q -> l ∈ listeners q) ->
  l_kind l = ev_kind e ->
  (forall q l', I q -> I (invoke e q l')) ->
  (forall q l', Q q -> Q (invoke e q l')) ->
  (forall q, I q -> Q (invoke e q l)) ->
  I q -> Q (dispatch_at e q (l_node l)).
Proof.
  intros Hin Hk HI HQ Hhit Hq. unfold dispatch_at.
  apply (fold_left_establish _ I Q _ l); auto.
  apply list_elem_of_filter. split; [|now apply Hin].
  unfold listens. now rewrite !bool_decide_eq_true_2.
Qed.

Lemma dispatch_establish (I Q : Page -> Prop) (e : event) (l : listener) (p : Page) :
  (forall q, I q -> l ∈ listeners q) ->
  l_node l ∈ propagation e -> l_kind l = ev_kind e ->
  (forall q l', I q -> I (invoke e q l')) ->
  (forall q l', Q q -> Q (invoke e q l')) ->
  (forall q, I q -> Q (invoke e q l)) ->
  I p -> Q (dispatch e p).
Proof.
  intros Hin Hn Hk HI HQ Hhit Hp. unfold dispatch.
  apply (fold_left_establish _ I Q _ (l_node l)); auto.
  - intros q n Hq. left. unfold dispatch_at.
    apply fold_left_invariant; [exact Hq | intros; now apply HI].
  - intros q n Hq. unfold dispatch_at.
    apply fold_left_invariant; [exact Hq | intros; now apply HQ].
  - intros q Hq. now apply (dispatch_at_establish I Q).
Qed.

Lemma contains_propagation e n :
  bubbles (ev_kind e) = true -> n ≠ Document -> contains n e = true -> n ∈ propagation e.
Proof.
  intros Hb Hd Hc. unfold propagation. rewrite Hb.
  apply elem_of_app. left. apply list_elem_of_filter. split; [exact Hd|].
  now apply bool_decide_eq_true_1 in Hc.
Qed.

(** A close request runs [closeSearch]: the fallback timer is pending
    when the dispatch is over. *)
Lemma close_request_sets_timer e p :
  close_request e p = true ->
  (now p + 300, TFallbackClose) ∈ timers (dispatch e p).
Proof.
  intros Hreq.
  set (I := fun q => now q = now p /\ dom q = dom p).
  set (Q := fun q => (now p + 300, TFallbackClose) ∈ timers q).
  assert (HI : forall q l', I q -> I (invoke e q l')).
  { intros q l' [H1 H2]. split; [now rewrite invoke_now | now rewrite invoke_dom]. }
  assert (HQ : forall q l', Q q -> Q (invoke e q l'))
    by (intros q l' Hq; now apply invoke_timers).
  assert (Hrun : forall l, l_once l = false -> l ∈ listeners p ->
                   l_node l ∈ propagation e -> l_kind l = ev_kind e ->
                   (forall q, I q ->
                      c_timers (core_step (l_handler l) e (core q))
                      = timers q ++ [(now q + 300, TFallbackClose)]) ->
                   Q (dispatch e p)).
  { intros l Hon Hl Hn Hk Hstep.
    apply (dispatch_establish (fun q => I q /\ l ∈ listeners q) Q e l); auto.
    - intros q [_ H]. exact H.
    - intros q l' [Hq H]. split; [now apply HI | now apply invoke_keeps_listener].
    - intros q [[Hnow Hdom] _]. unfold Q.
      change (timers (invoke e q l)) with (c_timers (core (invoke e q l))).
      rewrite invoke_core. unfold core_unregister. rewrite Hon.
      rewrite Hstep by (split; assumption). rewrite Hnow.
      apply elem_of_app. right. left.
    - split; [split; reflexivity | exact Hl]. }
  unfold close_request, attached in Hreq.
  destruct (ev_kind e) eqn:Hk; try discriminate.
  - apply orb_prop in Hreq as [Hreq | Hreq].
    + apply andb_prop in Hreq as [Hc Hl]. apply bool_decide_eq_true_1 in Hl.
      eapply Hrun; only 2: exact Hl; [reflexivity | | reflexivity | reflexivity].
      apply contains_propagation; [now rewrite Hk | discriminate | exact Hc].
    + apply andb_prop in Hreq as [Hreq Hl]. apply andb_prop in Hreq as [Hc Hb].
      apply bool_decide_eq_true_1 in Hl.
      eapply Hrun; only 2: exact Hl; [reflexivity | | reflexivity | ].
      * apply contains_propagation; [now rewrite Hk | discriminate | exact Hc].
      * intros q [_ Hdom]. cbn. rewrite Hdom, Hb. reflexivity.
  - apply andb_prop in Hreq as [Ht Hl].
    apply bool_decide_eq_true_1 in Ht. apply bool_decide_eq_true_1 in Hl.
    eapply Hrun; only 2: exact Hl; [reflexivity | | reflexivity | reflexivity].
    unfold propagation. rewrite Hk. cbn. rewrite Ht. left.
Qed.

Lemma close_request_enabled e p :
  close_request e p = true -> dlg_open (dialog p) = true -> enabled e p = true.
Proof. intros _ Ho. unfold enabled. rewrite Ho. apply orb_true_r. Qed.

(** C8: after a close request on the open dialog, whatever else arrives
    before the fallback delay is over (an animation end or none, further
    clicks, other timers), the dialog is closed and unmarked when the
    clock reaches 300 ms after the request. *)
Theorem close_request_closes_in_time (p : Page) (req : event) (between : list input) :
  reachable p ->
  dlg_open (dialog p) = true ->
  close_request req p = true ->
  admissible between (dispatch req p) = true ->
  now (run between (dispatch req p)) < now p + 300 ->
  let q := advance_to (now p + 300) (run between (dispatch req p)) in
  dlg_open (dialog q) = false /\ dlg_closing (dialog q) = false /\
  now q = now p + 300.
Proof.
  intros Hr Ho Hreq Hadm Hnow q.
  set (p1 := dispatch req p) in *. set (p2 := run between p1) in *.
  assert (Hinv2 : dialog_inv p2).
  { apply run_dialog_inv; [exact Hadm|].
    apply dispatch_dialog_inv; [now apply close_request_enabled|].
    now apply reachable_dialog_inv. }
  assert (Hpend : (now p + 300, TFallbackClose) ∈ timers p2).
  { apply run_keeps_later; [exact Hnow | now apply close_request_sets_timer]. }
  assert (Hclosed : dialog_closed (fire_due (length (timers p2)) (now p + 300) p2)).
  { apply fire_due_closes; [lia | apply Hinv2 |].
    left. exists (now p + 300). split; [lia | exact Hpend]. }
  split; [apply Hclosed|]. split; [apply Hclosed|].
  apply advance_to_now. lia.
Qed.

Lemma dialog_open_page_reachable : reachable dialog_open_page.
Proof.
  apply run_reachable; [vm_compute; reflexivity|].
  apply (reach_boot fresh_page). repeat split.
Qed.

Lemma close_request_closes_in_time_witness :
  let q := advance_to (now dialog_open_page + 300)
             (run no_animation (dispatch close_button_click dialog_open_page)) in
  dlg_open (dialog q) = false /\ dlg_closing (dialog q) = false /\
  now q = now dialog_open_page + 300.
Proof.
  apply (close_request_closes_in_time dialog_open_page close_button_click no_animation).
  - exact dialog_open_page_reachable.
  - reflexivity.
  - vm_compute; reflexivity.
  - vm_compute; reflexivity.
  - vm_compute; reflexivity.
Defined.

(** The same request on the sample page, step by step: the dialog is in
    the closing state until the timer fires. *)
Example closing_then_closed :
  let p1 := dispatch close_button_click dialog_open_page in
  (dlg_open (dialog p1), dlg_closing (dialog p1)) = (true, true) /\
  (dlg_open (dialog (run [Elapse 299] p1)), dlg_closing (dialog (run [Elapse 299] p1)))
    = (true, true) /\
  (dlg_open (dialog (run [Elapse 300] p1)), dlg_closing (dialog (run [Elapse 300] p1)))
    = (false, false).
Proof. vm_compute. repeat split; reflexivity. Qed.

(** ** The sample page, event by event *)

(** The three close triggers of the nav panel, dispatched on the wired
    sample page. *)
Example nav_triggers_dispatched :
  nav_is_open nav_open_page = true /\
  nav (dispatch (click SiteNav [] 5 5) nav_open_page) = nav booted_page /\
  nav (dispatch (click (NavLink 1) [SiteNav] 5 5) nav_open_page) = nav booted_page /\
  nav (dispatch (keydown Hamburger [] "Escape") nav_open_page) = nav booted_page /\
  focus (dispatch (keydown Hamburger [] "Escape") nav_open_page) = Some Hamburger.
Proof. vm_compute. repeat split; reflexivity. Qed.

(** Escape reaches two listeners of the document, in the order the script
    attached them: the nav panel's, then the dropdown menus'.  With a menu
    open, the second one moves the focus on to that menu's summary. *)
Example escape_with_menu_open :
  let q := dispatch (keydown (SummaryN 0) [DetailsN 0; SiteNav] "Escape")
             nav_and_menu_open_page in
  nav q = nav booted_page /\
  map d_open (details q) = [false; false; false] /\
  focus q = Some (SummaryN 0) /\
  calls q = [CallFocus Hamburger; CallFocus (SummaryN 0)].
Proof. vm_compute. repeat split; reflexivity. Qed.

(** The toggle event of a menu that has opened, dispatched on the wired
    sample page with another menu open. *)
Example accordion_dispatched :
  map d_open (details (dispatch (plain Toggle (DetailsN 1) [SiteNav])
                         (with_details (details two_open_page) booted_page)))
  = [false; true; true].
Proof. vm_compute. reflexivity. Qed.

(** A hint clicked with the pointer inside the dialog's box. *)
Example hint_dispatched :
  let q := dispatch (click (Hint 0) [SearchDialog] 300 300) dialog_open_page in
  input_value (dialog q) = "HTML" /\ focus q = Some SearchInput /\
  dlg_open (dialog q) = true /\ dlg_closing (dialog q) = false /\ timers q = [].
Proof. vm_compute. repeat split; reflexivity. Qed.

(** The theme toggle clicked twice on the wired sample page. *)
Example theme_dispatched :
  let q1 := dispatch (click ThemeToggle [] 5 5) booted_page in
  let q2 := dispatch (click ThemeToggle [] 5 5) q1 in
  (theme_attr (theme q1), stored_theme q1) = (Some "light", Some "light") /\
  (theme_attr (theme q2), stored_theme q2) = (Some "dark", Some "dark").
Proof. vm_compute. repeat split; reflexivity. Qed.

(** A click that reaches the dialog with coordinates outside its box
    starts the close whatever its target is; here the target is a hint
    inside the dialog and the coordinates are (0, 0). *)
Example hint_click_outside_box :
  let q := dispatch (click (Hint 0) [SearchDialog] 0 0) dialog_open_page in
  input_value (dialog q) = "HTML" /\ dlg_open (dialog q) = true /\
  dlg_closing (dialog q) = true /\ timers q = [(360, TFallbackClose)].
Proof. vm_compute. repeat split; reflexivity. Qed.

(** The toggle clicked on the wired sample page with a store that refuses
    writes: the exception escapes the listener and is reported. *)
Example readonly_toggle_dispatched :
  let q := dispatch (click ThemeToggle [] 5 5) (page_of (main readonly_page)) in
  errors q = 1%nat /\ theme_attr (theme q) = Some "light" /\
  stored_theme q = None /\ toggle_label (theme q) = None.
Proof. vm_compute. repeat split; reflexivity. Qed.

(** ** The fuel of [advance_to] is enough *)

Lemma fire_due_exhausts n t p :
  (length (timers p) <= n)%nat -> next_due t (timers (fire_due n t p)) = None.
Proof.
  revert p. induction n as [|n IH]; intros p Hlen; cbn.
  - destruct (timers p); [reflexivity | cbn in Hlen; lia].
  - destruct (next_due t (timers p)) as [y|] eqn:Hy; [|exact Hy].
    apply IH. rewrite (proj2 (proj2 (proj2 (run_timer_frame _ _)))). cbn.
    pose proof (remove_timer_length y (timers p) (proj1 (next_due_some _ _ _ Hy))).
    lia.
Qed.

(** When the clock has reached [t], no timer due by [t] is left. *)
Lemma advance_to_fires_all t p x :
  x ∈ timers (advance_to t p) -> t < x.1.
Proof.
  unfold advance_to. cbn. apply next_due_none.
  apply fire_due_exhausts. lia.
Qed.

(** * Further properties of the script *)

(** ** What the script attaches *)

Lemma with_listeners_same p : with_listeners (listeners p) p = p.
Proof. now destruct p. Qed.

Lemma fold_left_attach {B} (g : B -> listener) (c : B -> bool)
    (step : Page -> B -> Page) (l : list B) (p : Page) :
  (forall q b, step q b = if c b then with_listeners (listeners q ++ [g b]) q else q) ->
  fold_left step l p
  = with_listeners (listeners p ++ map g (filter (fun b => c b = true) l)) p.
Proof.
  intros Hstep. revert p. induction l as [|b l IH]; intros p; cbn [fold_left].
  - cbn. now rewrite app_nil_r, with_listeners_same.
  - rewrite IH, Hstep, filter_cons. destruct (c b) eqn:Hc.
    + rewrite decide_True by reflexivity. cbn.
      now rewrite <- app_assoc.
    + rewrite decide_False by discriminate. reflexivity.
Qed.

Lemma filter_all {A} (l : list A) : filter (fun _ : A => true = true) l = l.
Proof.
  induction l as [|x l IH]; [reflexivity|].
  rewrite filter_cons_True by reflexivity. now rewrite IH.
Qed.

Lemma wire_theme_eq p :
  wire_theme p = with_listeners (listeners p ++ theme_wiring (dom p)) p.
Proof.
  unfold wire_theme, when, theme_wiring. destruct (has_theme_toggle _); [reflexivity|].
  now rewrite app_nil_r, with_listeners_same.
Qed.

Lemma wire_nav_eq p :
  wire_nav p = with_listeners (listeners p ++ nav_wiring (dom p)) p.
Proof.
  unfold wire_nav, when, nav_wiring. destruct (_ && _).
  - rewrite (fold_left_attach (fun i => attach (NavLink i) Click HCloseNav)
               (fun _ => true)) by reflexivity.
    rewrite filter_all. cbn. now rewrite <- !app_assoc.
  - now rewrite app_nil_r, with_listeners_same.
Qed.

Lemma wire_details_eq p :
  wire_details p = with_listeners (listeners p ++ details_wiring (details p)) p.
Proof.
  unfold wire_details, for_each_details, details_wiring.
  rewrite (fold_left_attach
             (fun x : nat * DetailsEl => attach (DetailsN x.1) Toggle (HDetailsToggle x.1))
             (fun x => d_in_nav x.2)) by (intros q [i d]; reflexivity).
  cbn. now rewrite <- !app_assoc.
Qed.

Lemma wire_search_eq p :
  wire_search p = with_listeners (listeners p ++ search_wiring (dom p)) p.
Proof.
  unfold wire_search, when, search_wiring. destruct (_ && _).
  - rewrite (fold_left_attach (fun i => attach (Hint i) Click (HHint i))
               (fun _ => true)) by reflexivity.
    rewrite filter_all. cbn. destruct (has_search_close (dom p)); cbn;
      now rewrite <- !app_assoc.
  - now rewrite app_nil_r, with_listeners_same.
Qed.

Lemma wire_skip_eq p :
  wire_skip p = with_listeners (listeners p ++ skip_wiring (dom p)) p.
Proof.
  unfold wire_skip, when, skip_wiring. destruct (_ && _); [reflexivity|].
  now rewrite app_nil_r, with_listeners_same.
Qed.

Lemma restored_frame p :
  dom (restored p) = dom p /\ details (restored p) = details p /\
  listeners (restored p) = listeners p.
Proof. unfold restored. destruct (truthy _); repeat split. Qed.

Lemma main_eq (p : Page) :
  st_get_throws (storage p) = false ->
  main p = Done (with_listeners (listeners p ++ wiring (dom p) (details p)) (restored p)).
Proof.
  intros Hr. unfold main, restore_theme, getItem. rewrite Hr. cbn [and_then].
  fold (stored_theme p). fold (restored p).
  destruct (restored_frame p) as (Hd & Hds & Hl).
  rewrite wire_skip_eq, wire_search_eq, wire_details_eq, wire_nav_eq, wire_theme_eq.
  cbn. rewrite Hd, Hds, Hl. unfold wiring. now rewrite <- !app_assoc.
Qed.

(** X1: with a readable store the script runs to its end, and all it does
    is apply a non-empty saved theme to the document and attach the
    listeners of [wiring], in that order, after those already there: it
    makes no native call, sets no timer and does not write to the store. *)
Theorem main_attaches_wiring (p : Page) :
  st_get_throws (storage p) = false ->
  main p = Done (with_listeners (listeners p ++ wiring (dom p) (details p)) (restored p)).
Proof. apply main_eq. Qed.

Lemma main_attaches_wiring_witness :
  main fresh_page
  = Done (with_listeners (listeners fresh_page ++ wiring (dom fresh_page) (details fresh_page))
            (restored fresh_page)).
Proof. apply (main_attaches_wiring fresh_page). reflexivity. Defined.

Lemma details_wiring_elem ds x :
  x ∈ filter (fun x : nat * DetailsEl => d_in_nav x.2 = true) (imap pair ds) <->
  ds !! x.1 = Some x.2 /\ d_in_nav x.2 = true.
Proof.
  rewrite list_elem_of_filter, list_elem_of_lookup. split.
  - intros [Hn [j Hj]]. split; [|exact Hn].
    rewrite list_lookup_imap in Hj. destruct (ds !! j) as [d|] eqn:Hd; [|discriminate].
    cbn in Hj. injection Hj as <-. exact Hd.
  - intros [Hl Hn]. split; [exact Hn|]. exists x.1.
    rewrite list_lookup_imap, Hl. now destruct x.
Qed.

Lemma wiring_sound d ds l :
  l ∈ wiring d ds ->
  l_once l = false /\ placed l = true /\ feature_present d ds l = true.
Proof.
  unfold wiring, theme_wiring, nav_wiring, details_wiring, search_wiring, skip_wiring.
  rewrite !elem_of_app. intros H.
  repeat match type of H with _ \/ _ => destruct H as [H | H] end.
  - destruct (has_theme_toggle d) eqn:E; [|inversion H].
    apply list_elem_of_singleton in H as ->. cbn. now rewrite E.
  - destruct (has_hamburger d && has_site_nav d) eqn:E; [|inversion H].
    apply elem_of_app in H as [H | H].
    + repeat (apply elem_of_cons in H as [-> | H]; [cbn; now rewrite ?E|]).
      inversion H.
    + apply list_elem_of_fmap in H as (i & -> & Hi). apply elem_of_seq in Hi.
      cbn. rewrite E. cbn. repeat split. apply Nat.ltb_lt. lia.
  - repeat (apply elem_of_cons in H as [-> | H]; [now cbn|]). inversion H.
  - apply list_elem_of_fmap in H as (x & -> & Hx).
    apply details_wiring_elem in Hx as [Hl Hn]. cbn.
    rewrite !bool_decide_eq_true_2 by reflexivity. now rewrite Hl.
  - destruct (has_search_dialog d && has_search_trigger d) eqn:E; [|inversion H].
    rewrite !elem_of_app in H.
    destruct H as [H | [H | [H | H]]].
    + apply list_elem_of_singleton in H as ->. cbn. now rewrite E.
    + destruct (has_search_close d) eqn:E2; [|inversion H].
      apply list_elem_of_singleton in H as ->. cbn. now rewrite E.
    + repeat (apply elem_of_cons in H as [-> | H]; [cbn; now rewrite ?E|]).
      inversion H.
    + apply list_elem_of_fmap in H as (i & -> & Hi). apply elem_of_seq in Hi.
      cbn. rewrite E, !bool_decide_eq_true_2 by reflexivity. cbn.
      repeat split. apply Nat.ltb_lt. lia.
  - destruct (has_skip_link d && has_main d) eqn:E; [|inversion H].
    apply list_elem_of_singleton in H as ->. cbn. now rewrite E.
Qed.

Lemma wiring_complete d ds l :
  l_once l = false -> placed l = true -> feature_present d ds l = true ->
  l ∈ wiring d ds.
Proof.
  destruct l as [n k h o]. unfold placed, feature_present. cbn.
  intros -> Hp Hf.
  unfold wiring, theme_wiring, nav_wiring, details_wiring, search_wiring, skip_wiring.
  rewrite !elem_of_app.
  destruct h;
    try (apply andb_prop in Hp as [Hn Hk];
         try apply bool_decide_eq_true_1 in Hn; apply bool_decide_eq_true_1 in Hk;
         subst).
  - left. rewrite Hf. left.
  - right; left. rewrite Hf. apply elem_of_app. left. left.
  - right; left. rewrite Hf. apply elem_of_app. left. right. left.
  - right; left. rewrite Hf. apply elem_of_app. left. right. right. left.
  - right; left. apply andb_prop in Hf as [Hf Hi]. rewrite Hf.
    destruct n; try discriminate. apply Nat.ltb_lt in Hi.
    apply elem_of_app. right. apply list_elem_of_fmap. exists i.
    split; [reflexivity|]. apply elem_of_seq. lia.
  - right; right; left; left. left.
  - right; right; left; left. right. left.
  - right; right; left; right.
    destruct (ds !! i) as [x|] eqn:Hx; [|discriminate].
    apply list_elem_of_fmap. exists (i, x). split; [reflexivity|].
    apply details_wiring_elem. now split.
  - right; right; right; left. rewrite Hf. apply elem_of_app. left. left.
  - right; right; right; left. apply andb_prop in Hf as [Hf Hc]. rewrite Hf, Hc.
    apply elem_of_app. right. apply elem_of_app. left. left.
  - right; right; right; left. rewrite Hf.
    apply elem_of_app. right. apply elem_of_app. right. apply elem_of_app. left. left.
  - right; right; right; left. rewrite Hf.
    apply elem_of_app. right. apply elem_of_app. right. apply elem_of_app. left. right. left.
  - right; right; right; left. apply andb_prop in Hf as [Hf Hi]. rewrite Hf.
    apply Nat.ltb_lt in Hi.
    apply elem_of_app. right. apply elem_of_app. right. apply elem_of_app. right.
    apply list_elem_of_fmap. exists i. split; [reflexivity|]. apply elem_of_seq. lia.
  - discriminate.
  - right; right; right; right. rewrite Hf. left.
Qed.

Lemma main_listeners_iff (p : Page) (l : listener) :
  st_get_throws (storage p) = false ->
  listeners p = [] ->
  l ∈ listeners (page_of (main p)) <->
  l_once l = false /\ placed l = true /\ feature_present (dom p) (details p) l = true.
Proof.
  intros Hr Hl. rewrite (main_eq p Hr). cbn. rewrite Hl. cbn. split.
  - apply wiring_sound.
  - intros (H1 & H2 & H3). now apply wiring_complete.
Qed.

(** X2: on a page where nothing was attached before, with a readable
    store, a listener is attached by the script exactly when it is one of
    the script's own (the node and event [placed] names, not once-only)
    and the elements of its feature exist: the nav listeners need both the
    hamburger and the nav, the dialog listeners need both the dialog and
    its trigger, a toggle listener needs a details element of the nav. *)
Theorem attached_iff_feature_present (p : Page) (l : listener) :
  st_get_throws (storage p) = false ->
  listeners p = [] ->
  l ∈ listeners (page_of (main p)) <->
  l_once l = false /\ placed l = true /\ feature_present (dom p) (details p) l = true.
Proof. apply main_listeners_iff. Qed.

Lemma attached_iff_feature_present_witness :
  attach SearchDialog Cancel HDialogCancel ∈ listeners (page_of (main fresh_page)) <->
  l_once (attach SearchDialog Cancel HDialogCancel) = false /\
  placed (attach SearchDialog Cancel HDialogCancel) = true /\
  feature_present (dom fresh_page) (details fresh_page)
    (attach SearchDialog Cancel HDialogCancel) = true.
Proof.
  apply (attached_iff_feature_present fresh_page); reflexivity.
Defined.

(** ** Every reachable page is tidy *)

Lemma invoke_tidy e p l : tidy p -> tidy (invoke e p l).
Proof.
  intros Hp x Hx. change (x ∈ c_listeners (core (invoke e p l))) in Hx.
  rewrite invoke_core in Hx. apply core_step_listeners_inv in Hx as [Hx | ->].
  - apply Hp. unfold core_unregister in Hx. destruct (l_once l); [cbn in Hx | exact Hx].
    now apply unregister_subset in Hx.
  - split; [reflexivity|]. split; reflexivity.
Qed.

Lemma dispatch_tidy e p : tidy p -> tidy (dispatch e p).
Proof. apply dispatch_always. intros q l. apply invoke_tidy. Qed.

Lemma fire_due_listeners n t p : listeners (fire_due n t p) = listeners p.
Proof.
  apply (fire_due_invariant (fun q => listeners q = listeners p)); [|reflexivity].
  intros q x Hq. now rewrite (proj1 (proj2 (proj2 (run_timer_frame _ _)))).
Qed.

Lemma step_tidy i p : tidy p -> tidy (step i p).
Proof.
  destruct i as [e | dt]; cbn [step]; [apply dispatch_tidy|].
  intros Hp l Hl. apply Hp. unfold advance_to in Hl. cbn in Hl.
  now rewrite fire_due_listeners in Hl.
Qed.

Lemma main_tidy p0 : pristine p0 -> tidy (page_of (main p0)).
Proof.
  intros (Hl & _) l Hin.
  destruct (st_get_throws (storage p0)) eqn:Hr.
  - unfold main, restore_theme, getItem in Hin. rewrite Hr in Hin. cbn in Hin.
    rewrite Hl in Hin. inversion Hin.
  - apply (main_listeners_iff p0 l Hr Hl) in Hin as (Ho & Hp & Hf).
    split; [exact Hp|]. split; [congruence|].
    intros Hh. unfold feature_present in Hf. rewrite Hh in Hf. discriminate.
Qed.

Lemma reachable_tidy p : reachable p -> tidy p.
Proof.
  induction 1 as [p0 Hp | p i _ IH _]; [now apply main_tidy | now apply step_tidy].
Qed.

Lemma dispatch_invariant_tidy (P : Page -> Prop) (e : event) (p : Page) :
  (forall q, P q -> tidy q) ->
  (forall q l, P q -> fires e l -> P (invoke e q l)) ->
  P p -> P (dispatch e p).
Proof.
  intros Ht Hstep Hp. unfold dispatch.
  apply fold_left_invariant; [exact Hp|].
  intros q n Hn Hq. unfold dispatch_at.
  apply fold_left_invariant; [exact Hq|].
  intros q' l Hl Hq'. apply list_elem_of_filter in Hl as [Hlis Hl].
  unfold listens in Hlis. apply andb_prop in Hlis as [H1 H2].
  apply bool_decide_eq_true_1 in H1. apply bool_decide_eq_true_1 in H2.
  destruct (Ht q Hq l Hl) as [Hpl Hon].
  apply Hstep; [exact Hq'|].
  split; [exact Hpl|]. split; [exact Hon|]. split; [now rewrite H1 | exact H2].
Qed.

Lemma fold_left_establish_in {A B} (f : A -> B -> A) (I Q : A -> Prop)
    (l : list B) (x : B) (a : A) :
  x ∈ l -> I a ->
  (forall a y, y ∈ l -> I a -> I (f a y) \/ Q (f a y)) ->
  (forall a y, y ∈ l -> Q a -> Q (f a y)) ->
  (forall a, I a -> Q (f a x)) ->
  Q (fold_left f l a).
Proof.
  intros Hx Ha HI HQ Hhit. revert a Ha.
  induction l as [|y l IH]; intros a Ha; [inversion Hx|].
  cbn. apply elem_of_cons in Hx as [<- | Hx].
  - apply fold_left_invariant; [now apply Hhit|].
    intros b z Hz. apply HQ. now right.
  - destruct (HI a y ltac:(left) Ha) as [H | H].
    + apply IH; auto.
      * intros b z Hz. apply HI. now right.
      * intros b z Hz. apply HQ. now right.
    + apply fold_left_invariant; [exact H|].
      intros b z Hz. apply HQ. now right.
Qed.

(** On a tidy page: if [l] stays attached until it is invoked, every
    listener the event can reach keeps [I] or yields [Q], keeps [Q], and
    [l] turns [I] into [Q], then [Q] holds when the dispatch is over. *)
Lemma dispatch_establish_tidy (I Q : Page -> Prop) (e : event) (l : listener) (p : Page) :
  (forall q, I q -> tidy q /\ l ∈ listeners q) ->
  (forall q, Q q -> tidy q) ->
  l_node l ∈ propagation e -> l_kind l = ev_kind e ->
  (forall q l', I q -> fires e l' -> I (invoke e q l') \/ Q (invoke e q l')) ->
  (forall q l', Q q -> fires e l' -> Q (invoke e q l')) ->
  (forall q, I q -> Q (invoke e q l)) ->
  I p -> Q (dispatch e p).
Proof.
  intros HIt HQt Hn Hk HI HQ Hhit Hp. unfold dispatch.
  assert (Hfires : forall q n l', (I q \/ Q q) -> n ∈ propagation e ->
             l' ∈ filter (fun l => listens n (ev_kind e) l = true) (listeners q) ->
             fires e l').
  { intros q n l' Hq Hnp Hl'. apply list_elem_of_filter in Hl' as [Hlis Hl'].
    unfold listens in Hlis. apply andb_prop in Hlis as [H1 H2].
    apply bool_decide_eq_true_1 in H1. apply bool_decide_eq_true_1 in H2.
    assert (Ht : tidy q) by (destruct Hq as [Hq | Hq]; [apply HIt | apply HQt]; exact Hq).
    destruct (Ht l' Hl') as [Hpl Hon].
    split; [exact Hpl|]. split; [exact Hon|]. split; [now rewrite H1 | exact H2]. }
  assert (HQat : forall q n, n ∈ propagation e -> Q q -> Q (dispatch_at e q n)).
  { intros q n Hnp Hq. unfold dispatch_at.
    apply fold_left_invariant; [exact Hq|].
    intros q' l' Hl' Hq'. apply HQ; [exact Hq'|].
    apply (Hfires q n); auto. }
  apply (fold_left_establish_in _ I Q _ (l_node l)); auto.
  - intros q n Hnp Hq. unfold dispatch_at.
    apply (fold_left_invariant _ (fun q' => I q' \/ Q q')); [now left|].
    intros q' l' Hl' [Hq' | Hq'].
    + apply HI; [exact Hq'|]. apply (Hfires q n); auto.
    + right. apply HQ; [exact Hq'|]. apply (Hfires q n); auto.
  - intros q Hq. unfold dispatch_at.
    apply (fold_left_establish_in _ I Q _ l).
    + apply list_elem_of_filter. split; [|apply HIt; exact Hq].
      unfold listens. now rewrite !bool_decide_eq_true_2.
    + exact Hq.
    + intros q' l' Hl' Hq'. apply HI; [exact Hq'|]. apply (Hfires q (l_node l)); auto.
    + intros q' l' Hl' Hq'. apply HQ; [exact Hq'|]. apply (Hfires q (l_node l)); auto.
    + exact Hhit.
Qed.

(** ** Mobile navigation, further *)

Lemma hamburger_click_nav p :
  nav (hamburger_click p) = nav_state (negb (nav_is_open p)).
Proof. reflexivity. Qed.

Lemma closeNav_nav p : nav (closeNav p) = nav_state false.
Proof. reflexivity. Qed.

Lemma nav_state_is_open p b : nav p = nav_state b -> nav_is_open p = b.
Proof. unfold nav_is_open. intros ->. now destruct b. Qed.

(** X3: the hamburger toggles.  A click opens the panel unless
    aria-hidden is exactly "false" (a missing attribute counts as closed),
    in which case it closes it; each click inverts what the next one
    reads; and from the second click on the page alternates between two
    states. *)
Theorem hamburger_toggles (p : Page) :
  nav (hamburger_click p) = nav_state (negb (nav_is_open p)) /\
  nav_is_open (hamburger_click p) = negb (nav_is_open p) /\
  hamburger_click (hamburger_click (hamburger_click p)) = hamburger_click p.
Proof.
  split; [reflexivity|].
  assert (H : nav_is_open (hamburger_click p) = negb (nav_is_open p))
    by (apply nav_state_is_open, hamburger_click_nav).
  split; [exact H|].
  assert (Hq : forall q, nav_is_open (hamburger_click q) = negb (nav_is_open q))
    by (intros q; apply nav_state_is_open, hamburger_click_nav).
  change (with_nav (nav_state (negb (nav_is_open (hamburger_click (hamburger_click p))))) p
          = with_nav (nav_state (negb (nav_is_open p))) p).
  now rewrite !Hq, negb_involutive.
Qed.

Lemma run_handler_nav h e p :
  nav (page_of (run_handler h e p)) = nav p \/
  nav_synced (page_of (run_handler h e p)).
Proof.
  destruct h; cbn [run_handler page_of]; try (left; reflexivity).
  - left. unfold theme_click, setItem. cbn. destruct (st_set_throws _); reflexivity.
  - right. eexists. apply hamburger_click_nav.
  - unfold nav_overlay_click. destruct (bool_decide _); [right | left; reflexivity].
    eexists. apply closeNav_nav.
  - unfold nav_keydown. destruct (_ && _); [right | left; reflexivity].
    exists false. reflexivity.
  - right. eexists. apply closeNav_nav.
  - left. unfold doc_click_details. apply (for_each_details_frame nav).
    intros j d q. destruct (negb _); reflexivity.
  - left. unfold doc_keydown_details. destruct (String.eqb _ _); [|reflexivity].
    apply (for_each_details_frame nav). intros j d q. destruct (d_has_summary d); reflexivity.
  - left. unfold details_toggle. destruct (details_is_open i p); [|reflexivity].
    apply (for_each_details_frame nav). intros j d q. destruct (bool_decide _); reflexivity.
  - left. unfold search_open, showModal. cbn. destruct (dlg_open _); reflexivity.
  - left. unfold dialog_click. destruct (clicked_backdrop _ _); reflexivity.
  - left. unfold hint_click. destruct (has_search_input _); reflexivity.
  - left. unfold anim_end, native_close. cbn. destruct (dlg_open _); reflexivity.
Qed.

Lemma invoke_nav_synced e p l : nav_synced p -> nav_synced (invoke e p l).
Proof.
  intros Hp. unfold invoke.
  set (p' := if l_once l then _ else p).
  assert (Hp' : nav p' = nav p) by (subst p'; destruct (l_once l); reflexivity).
  destruct (run_handler_nav (l_handler l) e p') as [H | H];
    destruct (run_handler (l_handler l) e p') as [q | q]; cbn in *.
  - unfold nav_synced. now rewrite H, Hp'.
  - unfold nav_synced in *. cbn. now rewrite H, Hp'.
  - exact H.
  - exact H.
Qed.

Lemma run_timer_nav cb p : nav (run_timer cb p) = nav p.
Proof.
  destruct cb; cbn.
  - unfold focus_input. destruct (has_search_input _); reflexivity.
  - unfold fallback_close, native_close. cbn. destruct (dlg_open _); reflexivity.
Qed.

Lemma step_nav_synced i p : nav_synced p -> nav_synced (step i p).
Proof.
  destruct i as [e | dt]; cbn [step].
  - apply dispatch_always. intros q l. apply invoke_nav_synced.
  - intros Hp. unfold advance_to. unfold nav_synced. cbn.
    apply (fire_due_invariant nav_synced); [|exact Hp].
    intros q x Hq. unfold nav_synced. now rewrite run_timer_nav.
Qed.

(** X4: the four attributes of the nav feature stay in step.  Once
    aria-hidden, aria-expanded, the hamburger's label and the body
    overflow agree on open or closed (as they do after any click on the
    hamburger or any close), no event and no timer brings them apart. *)
Theorem nav_attributes_stay_in_step (p : Page) (ins : list input) :
  nav_synced p -> nav_synced (run ins p).
Proof.
  revert p. induction ins as [|i r IH]; intros p Hp; [exact Hp|].
  cbn. apply IH. now apply step_nav_synced.
Qed.

Lemma nav_attributes_stay_in_step_witness :
  nav_synced (run [Deliver (click Hamburger [] 5 5);
                   Deliver (keydown Hamburger [] "Escape"); Elapse 10]
                  (hamburger_click booted_page)).
Proof.
  apply (nav_attributes_stay_in_step (hamburger_click booted_page)).
  eexists. apply hamburger_click_nav.
Defined.

(** ** Keys other than Escape *)

Lemma fires_keydown e l :
  ev_kind e = KeyDown -> fires e l ->
  l_once l = false /\ (l_handler l = HNavEscape \/ l_handler l = HDocEscapeDetails).
Proof.
  intros Hk (Hp & Hon & _ & Hkind). rewrite Hk in Hkind.
  unfold placed in Hp.
  destruct (l_handler l) eqn:Hh;
    apply andb_prop in Hp as [_ Hp]; apply bool_decide_eq_true_1 in Hp;
    try congruence.
  - split; [|now left]. destruct (l_once l); [|reflexivity].
    destruct Hon as [Hon _]. now specialize (Hon eq_refl).
  - split; [|now right]. destruct (l_once l); [|reflexivity].
    destruct Hon as [Hon _]. now specialize (Hon eq_refl).
Qed.

(** X5: on a page the script has set up, a key press other than Escape
    changes nothing at all. *)
Theorem other_keys_change_nothing (p : Page) (e : event) :
  reachable p ->
  ev_kind e = KeyDown ->
  ev_key e ≠ "Escape" ->
  dispatch e p = p.
Proof.
  intros Hr Hk Hkey.
  assert (Hne : String.eqb (ev_key e) "Escape" = false)
    by (apply String.eqb_neq; exact Hkey).
  apply (dispatch_invariant_tidy (fun q => q = p)); [| |reflexivity].
  - intros q ->. now apply reachable_tidy.
  - intros q l -> Hf. destruct (fires_keydown e l Hk Hf) as [Ho [Hh | Hh]];
      unfold invoke; rewrite Ho, Hh; cbn.
    + unfold nav_keydown. now rewrite Hne.
    + unfold doc_keydown_details. now rewrite Hne.
Qed.

Lemma other_keys_change_nothing_witness :
  dispatch (keydown SearchInput [SearchDialog] "a") dialog_open_page = dialog_open_page.
Proof.
  apply (other_keys_change_nothing dialog_open_page).
  - exact dialog_open_page_reachable.
  - reflexivity.
  - discriminate.
Defined.

(** ** Dropdown menus, further *)

Lemma imap_pair_elem (ds : list DetailsEl) (x : nat * DetailsEl) :
  x ∈ imap pair ds -> ds !! x.1 = Some x.2.
Proof.
  intros H. apply list_elem_of_lookup in H as [j Hj].
  rewrite list_lookup_imap in Hj. destruct (ds !! j) as [d|] eqn:Hd; [|discriminate].
  cbn in Hj. injection Hj as <-. exact Hd.
Qed.

Lemma for_each_details_inert sel body p :
  (forall j d q, details p !! j = Some d -> sel j d = true -> body j d q = q) ->
  for_each_details sel body p = p.
Proof.
  intros H. unfold for_each_details.
  apply (fold_left_invariant _ (fun q => q = p)); [reflexivity|].
  intros q [j d] Hx ->. apply imap_pair_elem in Hx. cbn in Hx.
  destruct (sel j d) eqn:Hs; [|reflexivity]. now apply H.
Qed.

Lemma for_each_details_only_details sel body p :
  (forall j d q, body j d q = with_details (details (body j d q)) q) ->
  for_each_details sel body p = with_details (details (for_each_details sel body p)) p.
Proof.
  intros H. unfold for_each_details.
  apply (fold_left_invariant _ (fun q => q = with_details (details q) p)).
  - now destruct p.
  - intros q [j d] _ Hq. destruct (sel j d); [|exact Hq].
    rewrite H. rewrite Hq at 2. reflexivity.
Qed.

Lemma doc_click_details_spec e p :
  details (doc_click_details e p)
  = imap (fun j d => if d_open d && negb (contains (DetailsN j) e)
                     then close_details d else d) (details p).
Proof.
  unfold doc_click_details.
  apply (for_each_details_spec _ _ (fun j _ => negb (contains (DetailsN j) e))).
  intros j d q. destruct (negb _); reflexivity.
Qed.

(** X6: a click anywhere closes the details elements that do not contain
    its target and no others: afterwards every element still open
    contains the target, every element that contains the target is as it
    was, and nothing but the open attributes has changed. *)
Theorem click_outside_closes_details (p : Page) (e : event) :
  let q := doc_click_details e p in
  (forall j d, details q !! j = Some d -> d_open d = true ->
               contains (DetailsN j) e = true) /\
  (forall j d, details p !! j = Some d -> contains (DetailsN j) e = true ->
               details q !! j = Some d) /\
  q = with_details (details q) p.
Proof.
  intros q. split; [|split].
  - intros j d Hd Ho. unfold q in Hd. rewrite doc_click_details_spec, list_lookup_imap in Hd.
    destruct (details p !! j) as [d0|]; [|discriminate]. cbn in Hd. injection Hd as <-.
    destruct (contains (DetailsN j) e); [reflexivity|].
    cbn [negb] in Ho. rewrite andb_true_r in Ho.
    destruct (d_open d0) eqn:E; cbn in Ho; congruence.
  - intros j d Hd Hc. unfold q. rewrite doc_click_details_spec, list_lookup_imap, Hd.
    cbn. rewrite Hc. now rewrite andb_false_r.
  - apply for_each_details_only_details.
    intros j d q'. destruct (negb _); [reflexivity | now destruct q'].
Qed.

Lemma doc_keydown_details_spec e p :
  ev_key e = "Escape" ->
  details (doc_keydown_details e p)
  = imap (fun j d => if d_open d && true then close_details d else d) (details p).
Proof.
  intros Hk. unfold doc_keydown_details. rewrite Hk. cbn [String.eqb].
  change (String.eqb "Escape" "Escape") with true. cbn iota.
  apply (for_each_details_spec _ _ (fun _ _ => true)).
  intros j d q. destruct (d_has_summary d); reflexivity.
Qed.

Lemma escape_focus_after l1 d l2 p :
  details p = l1 ++ d :: l2 ->
  d_open d = true -> d_has_summary d = true ->
  (forall d', d' ∈ l2 -> d_open d' && d_has_summary d' = false) ->
  focus (for_each_details (fun _ d => d_open d)
           (fun i d q => let q := remove_open i q in
                         if d_has_summary d then do_focus (SummaryN i) q else q) p)
  = Some (SummaryN (length l1)).
Proof.
  intros Hds Ho Hs Hrest. unfold for_each_details. rewrite Hds.
  rewrite imap_app, fold_left_app. cbn [imap fold_left]. rewrite Nat.add_0_r, Ho, Hs.
  apply (fold_left_invariant _ (fun q => focus q = Some (SummaryN (length l1))));
    [reflexivity|].
  intros q [k d'] Hx Hq.
  assert (Hd' : d' ∈ l2).
  { apply list_elem_of_lookup in Hx as [j Hj]. rewrite list_lookup_imap in Hj.
    destruct (l2 !! j) as [y|] eqn:Hy; [|discriminate]. cbn in Hj.
    injection Hj as _ <-. apply list_elem_of_lookup. now exists j. }
  specialize (Hrest d' Hd'). destruct (d_open d'); [|exact Hq].
  cbn in Hrest. rewrite Hrest. exact Hq.
Qed.

(** X7: Escape closes every details element of the page.  Afterwards
    none carries [open]; the focus is on the summary of the last element
    that was open and has a summary; and when none was open the page is
    left exactly as it was. *)
Theorem escape_closes_all_details (p : Page) (e : event) :
  ev_key e = "Escape" ->
  let q := doc_keydown_details e p in
  (forall j d, details q !! j = Some d -> d_open d = false) /\
  (forall j d, details p !! j = Some d -> d_open d = true -> d_has_summary d = true ->
     (forall k d', (j < k)%nat -> details p !! k = Some d' ->
                   d_open d' && d_has_summary d' = false) ->
     focus q = Some (SummaryN j)) /\
  ((forall j d, details p !! j = Some d -> d_open d = false) -> q = p).
Proof.
  intros Hk q. split; [|split].
  - intros j d Hd. unfold q in Hd. rewrite (doc_keydown_details_spec e p Hk) in Hd.
    rewrite list_lookup_imap in Hd.
    destruct (details p !! j) as [d0|]; [|discriminate]. cbn in Hd. injection Hd as <-.
    rewrite andb_true_r. destruct (d_open d0) eqn:Ho; [reflexivity | exact Ho].
  - intros j d Hd Ho Hs Hlast. unfold q, doc_keydown_details. rewrite Hk.
    change (String.eqb "Escape" "Escape") with true. cbn iota.
    pose proof (take_drop_middle (details p) j d Hd) as Hsplit.
    assert (Hlen : length (take j (details p)) = j)
      by (rewrite length_take; apply lookup_lt_Some in Hd; lia).
    rewrite <- Hlen at 1.
    apply (escape_focus_after _ d (drop (S j) (details p)));
      [now symmetry | exact Ho | exact Hs |].
    intros d' Hd'. apply list_elem_of_lookup in Hd' as [k Hk'].
    rewrite lookup_drop in Hk'. apply (Hlast (S j + k)%nat d'); [lia | exact Hk'].
  - intros Hnone. unfold q, doc_keydown_details. rewrite Hk.
    change (String.eqb "Escape" "Escape") with true. cbn iota.
    apply for_each_details_inert. intros j d q' Hd Ho.
    rewrite (Hnone j d Hd) in Ho. discriminate.
Qed.

Lemma escape_closes_all_details_witness :
  let q := doc_keydown_details (keydown Hamburger [] "Escape") two_open_page in
  (forall j d, details q !! j = Some d -> d_open d = false) /\
  focus q = Some (SummaryN 2).
Proof.
  destruct (escape_closes_all_details two_open_page (keydown Hamburger [] "Escape") eq_refl)
    as (H1 & H2 & _).
  split; [exact H1|].
  apply (H2 2%nat {| d_open := true; d_in_nav := false; d_has_summary := true |});
    try reflexivity.
  intros k d' Hlt Hd'. destruct k as [|[|[|k]]]; try lia; discriminate.
Defined.

Lemma details_toggle_only_details i p :
  details_toggle i p = with_details (details (details_toggle i p)) p.
Proof.
  unfold details_toggle. destruct (details_is_open i p); [|now destruct p].
  apply for_each_details_only_details.
  intros j d q. destruct (bool_decide _); [reflexivity | now destruct q].
Qed.

Lemma details_toggle_closed i p : details_is_open i p = false -> details_toggle i p = p.
Proof. intros H. unfold details_toggle. now rewrite H. Qed.

(** X8: the accordion touches nothing else and does not cascade.  When
    the toggle listener of an open details element has run, the details
    elements outside the navigation are as they were, nothing but open
    attributes has changed, the toggle listeners of the elements it closed
    do nothing (their toggle events end there), and running the same
    listener again changes nothing. *)
Theorem accordion_settles (p : Page) (i : nat) :
  details_is_open i p = true ->
  let q := details_toggle i p in
  (forall j d, details p !! j = Some d -> d_in_nav d = false ->
               details q !! j = Some d) /\
  q = with_details (details q) p /\
  (forall j d, j ≠ i -> details q !! j = Some d -> d_in_nav d = true ->
               details_toggle j q = q) /\
  details_toggle i q = q.
Proof.
  intros Ho q.
  assert (Hq : details q = imap (fun j d => if d_in_nav d && d_open d && bool_decide (j ≠ i)
                                            then close_details d else d) (details p))
    by (apply details_toggle_spec; exact Ho).
  assert (Hothers : forall j d, j ≠ i -> details q !! j = Some d -> d_in_nav d = true ->
                                d_open d = false).
  { intros j d Hj Hd Hnav. rewrite Hq, list_lookup_imap in Hd.
    destruct (details p !! j) as [d0|]; [|discriminate].
    cbn in Hd. injection Hd as <-.
    rewrite (bool_decide_eq_true_2 _ Hj), andb_true_r in *.
    destruct (d_in_nav d0 && d_open d0) eqn:Hb; [reflexivity|].
    rewrite Hnav in Hb. exact Hb. }
  split; [|split; [|split]].
  - intros j d Hd Hn. rewrite Hq, list_lookup_imap, Hd. cbn. now rewrite Hn.
  - apply details_toggle_only_details.
  - intros j d Hj Hd Hn. apply details_toggle_closed.
    unfold details_is_open. rewrite Hd. now apply (Hothers j).
  - unfold details_toggle at 1.
    destruct (details_is_open i q); [|reflexivity].
    apply for_each_details_inert. intros j d q' Hd Hsel.
    destruct (decide (j = i)) as [-> | Hne].
    + rewrite bool_decide_eq_false_2; [reflexivity | intros H; now apply H].
    + apply andb_prop in Hsel as [Hn Hop].
      rewrite (Hothers j d Hne Hd Hn) in Hop. discriminate.
Qed.

Lemma accordion_settles_witness :
  let q := details_toggle 1 two_open_page in
  (forall j d, details two_open_page !! j = Some d -> d_in_nav d = false ->
               details q !! j = Some d) /\
  q = with_details (details q) two_open_page /\
  (forall j d, j ≠ 1%nat -> details q !! j = Some d -> d_in_nav d = true ->
               details_toggle j q = q) /\
  details_toggle 1 q = q.
Proof. apply (accordion_settles two_open_page 1). reflexivity. Defined.

(** ** Theme toggle, further *)

Lemma main_theme_attr p :
  st_get_throws (storage p) = false ->
  theme_attr (theme (page_of (main p)))
  = if truthy (stored_theme p) then stored_theme p else theme_attr (theme p).
Proof.
  intros Hr. rewrite (main_eq p Hr). cbn. unfold restored.
  destruct (truthy (stored_theme p)); reflexivity.
Qed.

(** X9: the toggled theme survives a reload.  After a click whose write
    succeeded, the script run on any page that has the same store applies
    to the document exactly the theme the click had set. *)
Theorem toggled_theme_survives_reload (p p0 : Page) :
  st_set_throws (storage p) = false ->
  st_get_throws (storage p) = false ->
  storage p0 = storage (theme_clicked p) ->
  theme_attr (theme (page_of (main p0))) = theme_attr (theme (theme_clicked p)).
Proof.
  intros Hw Hr Hst.
  assert (Hstored : stored_theme p0 = Some (flipped p)).
  { unfold stored_theme. rewrite Hst. now apply theme_clicked_stored. }
  assert (Hr0 : st_get_throws (storage p0) = false).
  { rewrite Hst. unfold theme_clicked. now rewrite theme_click_done. }
  rewrite (main_theme_attr p0 Hr0), Hstored, theme_clicked_attr.
  unfold flipped. now destruct (is_dark p).
Qed.

Lemma toggled_theme_survives_reload_witness :
  theme_attr (theme (page_of (main (with_storage (storage (theme_clicked light_page))
                                      fresh_page))))
  = theme_attr (theme (theme_clicked light_page)).
Proof.
  apply (toggled_theme_survives_reload light_page); reflexivity.
Defined.

(** X10: what the load does with the saved value.  A missing key and an
    empty string leave the document attribute as the markup has it; any
    other string is applied as it is, whether or not it names a theme. *)
Theorem load_applies_saved_theme (p : Page) :
  st_get_throws (storage p) = false ->
  ((stored_theme p = None \/ stored_theme p = Some "") ->
     theme (page_of (main p)) = theme p) /\
  (forall s, stored_theme p = Some s -> s ≠ "" ->
     theme_attr (theme (page_of (main p))) = Some s).
Proof.
  intros Hr. rewrite (main_eq p Hr). cbn. unfold restored. split.
  - intros [-> | ->]; reflexivity.
  - intros s -> Hs. cbn. apply String.eqb_neq in Hs. now rewrite Hs.
Qed.

Lemma load_applies_saved_theme_witness :
  theme (page_of (main fresh_page)) = theme fresh_page /\
  theme_attr (theme (page_of (main (with_storage (working_store {["theme" := "sepia"]})
                                      fresh_page)))) = Some "sepia".
Proof.
  split.
  - apply (proj1 (load_applies_saved_theme fresh_page eq_refl)). now left.
  - apply (proj2 (load_applies_saved_theme
                    (with_storage (working_store {["theme" := "sepia"]}) fresh_page)
                    eq_refl) "sepia"); [reflexivity | discriminate].
Defined.

(** X11: a click on the theme toggle touches the theme and one key.  Of
    the store only the key "theme" changes, and of the page only the
    store and the document attribute and label of the theme. *)
Theorem theme_click_touches_only_theme (p : Page) (k : string) :
  let q := theme_clicked p in
  (k ≠ "theme" -> st_items (storage q) !! k = st_items (storage p) !! k) /\
  q = with_theme (theme q) (with_storage (storage q) p).
Proof.
  intros q. unfold q, theme_clicked.
  destruct (st_set_throws (storage p)) eqn:Hw.
  - rewrite theme_click_threw by assumption. cbn. split; [reflexivity|].
    now destruct p as [? ? [? ? ?] ? ? ? ? ? ? ? ? ? ?].
  - rewrite theme_click_done by assumption. cbn. split; [|reflexivity].
    intros Hk. apply lookup_insert_ne. congruence.
Qed.

Lemma theme_click_touches_only_theme_witness :
  st_items (storage (theme_clicked light_page)) !! "lang"
  = st_items (storage light_page) !! "lang".
Proof.
  apply (proj1 (theme_click_touches_only_theme light_page "lang")). discriminate.
Defined.

(** ** Search dialog, further *)

Lemma next_due_single t x :
  next_due t [x] = if x.1 <=? t then Some x else None.
Proof. reflexivity. Qed.

Lemma focus_input_present p :
  has_search_input (dom p) = true -> focus_input p = do_focus SearchInput p.
Proof. intros H. unfold focus_input. now rewrite H. Qed.

(** X12: the focus follows the opening by 50 ms.  With no other timer
    pending and the input present, activating the trigger opens the
    dialog and leaves one timer pending; it is still pending before 50 ms
    have passed, and when they have passed the focus is on the input, the
    dialog is open and no timer is left. *)
Theorem focus_follows_opening (p : Page) (t : Z) :
  timers p = [] ->
  dlg_open (dialog p) = false ->
  has_search_input (dom p) = true ->
  let q := search_open p in
  dlg_open (dialog q) = true /\
  (t < now p + 50 -> timers (advance_to t q) = [(now p + 50, TFocusInput)] /\
                     dlg_open (dialog (advance_to t q)) = true) /\
  (now p + 50 <= t -> focus (advance_to t q) = Some SearchInput /\
                      dlg_open (dialog (advance_to t q)) = true /\
                      timers (advance_to t q) = []).
Proof.
  intros Ht Ho Hin q.
  assert (Hq : timers q = [(now p + 50, TFocusInput)]).
  { unfold q, search_open, showModal. cbn. rewrite Ho. cbn. now rewrite Ht. }
  assert (Hopen : dlg_open (dialog q) = true).
  { unfold q, search_open, showModal. cbn. now rewrite Ho. }
  assert (Hdom : dom q = dom p).
  { unfold q, search_open, showModal. cbn. now rewrite Ho. }
  split; [exact Hopen|]. split.
  - intros Hlt. unfold advance_to. rewrite Hq. cbn [length fire_due].
    rewrite Hq, next_due_single. cbn [fst].
    destruct (now p + 50 <=? t) eqn:E; [lia|]. cbn. now split.
  - intros Hle. unfold advance_to. rewrite Hq. cbn [length fire_due].
    rewrite Hq, next_due_single. cbn [fst snd].
    destruct (now p + 50 <=? t) eqn:E; [|lia].
    cbn [fst snd run_timer].
    rewrite focus_input_present
      by (change (has_search_input (dom q) = true); now rewrite Hdom).
    cbn. rewrite bool_decide_eq_true_2 by reflexivity.
    now split.
Qed.

Lemma focus_follows_opening_witness :
  let q := search_open booted_page in
  dlg_open (dialog q) = true /\
  (50 < now booted_page + 50 ->
     timers (advance_to 50 q) = [(now booted_page + 50, TFocusInput)] /\
     dlg_open (dialog (advance_to 50 q)) = true) /\
  (now booted_page + 50 <= 50 -> focus (advance_to 50 q) = Some SearchInput /\
                      dlg_open (dialog (advance_to 50 q)) = true /\
                      timers (advance_to 50 q) = []).
Proof. apply (focus_follows_opening booted_page 50); reflexivity. Defined.

(** X13: a fallback timer does not ask why it is pending.  On a page the
    script has set up, a pending fallback timer leaves the dialog closed
    and unmarked when its deadline comes, whatever arrived meanwhile: also
    when the exit animation had closed the dialog in time and the trigger
    has opened it again. *)
Theorem fallback_timer_closes_whatever (p : Page) (d : Z) (between : list input) :
  reachable p ->
  (d, TFallbackClose) ∈ timers p ->
  admissible between p = true ->
  now (run between p) < d ->
  dialog_closed (advance_to d (run between p)).
Proof.
  intros Hr Hin Hadm Hnow.
  assert (Hinv : dialog_inv (run between p))
    by (apply run_dialog_inv; [exact Hadm | now apply reachable_dialog_inv]).
  assert (Hpend : (d, TFallbackClose) ∈ timers (run between p))
    by (apply run_keeps_later; assumption).
  unfold advance_to.
  apply (fire_due_closes (length (timers (run between p))) d (run between p));
    [lia | apply Hinv |].
  left. exists d. split; [lia | exact Hpend].
Qed.

Lemma closing_page_reachable : reachable closing_page.
Proof.
  apply (reach_step dialog_open_page (Deliver close_button_click));
    [exact dialog_open_page_reachable | vm_compute; reflexivity].
Qed.

Lemma fallback_timer_closes_whatever_witness :
  dlg_open (dialog (run closed_and_reopened closing_page)) = true /\
  dialog_closed (advance_to 360 (run closed_and_reopened closing_page)).
Proof.
  split; [vm_compute; reflexivity|].
  apply (fallback_timer_closes_whatever closing_page 360 closed_and_reopened).
  - exact closing_page_reachable.
  - vm_compute. left.
  - vm_compute; reflexivity.
  - vm_compute; reflexivity.
Defined.

Lemma fires_animation_end e l :
  ev_kind e = AnimationEnd -> fires e l -> l_handler l = HAnimEnd.
Proof.
  intros Hk (Hp & _ & _ & Hkind). rewrite Hk in Hkind. unfold placed in Hp.
  destruct (l_handler l); try reflexivity;
    apply andb_prop in Hp as [_ Hp]; apply bool_decide_eq_true_1 in Hp; congruence.
Qed.

Lemma invoke_anim_end_closed e p l :
  l_handler l = HAnimEnd -> dialog_closed (invoke e p l).
Proof.
  intros Hh. unfold dialog_closed.
  change (dlg_open (dialog (invoke e p l))) with (c_open (core (invoke e p l))).
  change (dlg_closing (dialog (invoke e p l))) with (c_closing (core (invoke e p l))).
  rewrite invoke_core, Hh. split; reflexivity.
Qed.

Lemma dispatch_unheard e p :
  (forall l, l ∈ listeners p -> l_kind l ≠ ev_kind e) -> dispatch e p = p.
Proof.
  intros Hnone. unfold dispatch.
  apply (fold_left_invariant _ (fun q => q = p)); [reflexivity|].
  intros q n _ ->. unfold dispatch_at.
  assert (Hnil : filter (fun l => listens n (ev_kind e) l = true) (listeners p) = []).
  { apply none_satisfies. intros j l Hl Hlis.
    unfold listens in Hlis. apply andb_prop in Hlis as [_ Hk].
    apply bool_decide_eq_true_1 in Hk.
    apply (Hnone l); [|exact Hk]. apply list_elem_of_lookup. now exists j. }
  now rewrite Hnil.
Qed.

Lemma tidy_animation_listener p l :
  tidy p -> l ∈ listeners p -> l_kind l = AnimationEnd -> l = anim_listener.
Proof.
  intros Ht Hl Hk. destruct (Ht l Hl) as [Hp Hon].
  assert (Hh : l_handler l = HAnimEnd).
  { unfold placed in Hp. destruct (l_handler l); try reflexivity;
      apply andb_prop in Hp as [_ Hp]; apply bool_decide_eq_true_1 in Hp; congruence. }
  unfold placed in Hp. rewrite Hh in Hp. apply andb_prop in Hp as [Hn _].
  apply bool_decide_eq_true_1 in Hn. pose proof (proj2 Hon Hh) as Ho.
  destruct l as [n k h o]. cbn in *. now subst.
Qed.

(** X14: the end of an animation.  On a page the script has set up, an
    animation that ends on the dialog or inside it while a close is
    pending (its once-listener still attached) leaves the dialog closed
    and unmarked; with no close pending it changes nothing at all. *)
Theorem animation_end_closes_when_pending (p : Page) (e : event) :
  reachable p ->
  ev_kind e = AnimationEnd ->
  (anim_listener ∈ listeners p -> contains SearchDialog e = true ->
     dialog_closed (dispatch e p)) /\
  (anim_listener ∉ listeners p -> dispatch e p = p).
Proof.
  intros Hr Hk. split.
  - intros Hl Hc.
    enough (H : tidy (dispatch e p) /\ dialog_closed (dispatch e p)) by apply H.
    apply (dispatch_establish_tidy
             (fun q => tidy q /\ anim_listener ∈ listeners q)
             (fun q => tidy q /\ dialog_closed q) e anim_listener).
    + auto.
    + intros q [H _]. exact H.
    + apply contains_propagation; [now rewrite Hk | discriminate | exact Hc].
    + now rewrite Hk.
    + intros q l' [Ht _] Hf. right. split; [now apply invoke_tidy|].
      apply invoke_anim_end_closed. now apply (fires_animation_end e).
    + intros q l' [Ht _] Hf. split; [now apply invoke_tidy|].
      apply invoke_anim_end_closed. now apply (fires_animation_end e).
    + intros q [Ht _]. split; [now apply invoke_tidy|].
      now apply invoke_anim_end_closed.
    + split; [now apply reachable_tidy | exact Hl].
  - intros Hnone. apply dispatch_unheard. intros l Hl Hkl. apply Hnone.
    rewrite Hk in Hkl.
    now rewrite <- (tidy_animation_listener p l (reachable_tidy p Hr) Hl Hkl).
Qed.

Lemma animation_end_closes_when_pending_witness :
  dialog_closed (dispatch (plain AnimationEnd (Other 0) [SearchDialog]) closing_page) /\
  dispatch (plain AnimationEnd (Other 0) [SearchDialog]) dialog_open_page = dialog_open_page.
Proof.
  split.
  - apply (proj1 (animation_end_closes_when_pending closing_page
                    (plain AnimationEnd (Other 0) [SearchDialog])
                    closing_page_reachable eq_refl)).
    + vm_compute. do 17 right. left.
    + reflexivity.
  - apply (proj2 (animation_end_closes_when_pending dialog_open_page
                    (plain AnimationEnd (Other 0) [SearchDialog])
                    dialog_open_page_reachable eq_refl)).
    vm_compute. intros H. repeat (apply elem_of_cons in H as [H | H]; [discriminate|]).
    inversion H.
Defined.

Lemma fires_click_not_once e l :
  ev_kind e = Click -> fires e l -> l_once l = false.
Proof.
  intros Hk (Hp & Hon & _ & Hkind). rewrite Hk in Hkind.
  destruct (l_once l) eqn:Ho; [|reflexivity].
  pose proof (proj1 Hon eq_refl) as Hh. unfold placed in Hp. rewrite Hh in Hp.
  apply andb_prop in Hp as [_ Hp]. apply bool_decide_eq_true_1 in Hp. congruence.
Qed.

(** X15: a click inside the dialog's box starts nothing.  On a page the
    script has set up, a click at coordinates within the box (borders
    included) that reaches neither the close button nor the trigger
    leaves the open attribute, the closing marker, the pending timers and
    the attached listeners as they are. *)
Theorem click_inside_box_starts_nothing (p : Page) (e : event) :
  reachable p ->
  ev_kind e = Click ->
  r_left (dlg_rect (dom p)) <= ev_clientX e <= r_right (dlg_rect (dom p)) ->
  r_top (dlg_rect (dom p)) <= ev_clientY e <= r_bottom (dlg_rect (dom p)) ->
  contains SearchClose e = false ->
  contains SearchTrigger e = false ->
  let q := dispatch e p in
  dlg_open (dialog q) = dlg_open (dialog p) /\
  dlg_closing (dialog q) = dlg_closing (dialog p) /\
  timers q = timers p /\ listeners q = listeners p.
Proof.
  intros Hr Hk Hx Hy Hclose Htrig q.
  assert (Hin : clicked_backdrop e (dlg_rect (dom p)) = false).
  { unfold clicked_backdrop.
    rewrite !orb_false_iff, !Z.ltb_ge, !Z.gtb_ltb, !Z.ltb_ge. lia. }
  enough (H : tidy q /\ core q = core p).
  { destruct H as [_ H]. unfold core in H. injection H as _ _ Hl Ht Ho Hc. auto. }
  apply (dispatch_invariant_tidy (fun q => tidy q /\ core q = core p)).
  - intros q' [H _]. exact H.
  - intros q' l [Ht Hc] Hf. split; [now apply invoke_tidy|].
    rewrite invoke_core. unfold core_unregister.
    rewrite (fires_click_not_once e l Hk Hf), Hc.
    destruct Hf as (Hp & _ & Hn & Hkind). rewrite Hk in Hkind. unfold placed in Hp.
    destruct (l_handler l); cbn [core_step]; try reflexivity;
      apply andb_prop in Hp as [Hnode Hp];
      apply bool_decide_eq_true_1 in Hnode; apply bool_decide_eq_true_1 in Hp;
      try congruence; rewrite Hnode in Hn.
    + rewrite (propagation_click_contains e SearchTrigger Hk Hn) in Htrig by discriminate.
      discriminate.
    + rewrite (propagation_click_contains e SearchClose Hk Hn) in Hclose by discriminate.
      discriminate.
    + cbn. now rewrite Hin.
  - split; [now apply reachable_tidy | reflexivity].
Qed.

Lemma click_inside_box_starts_nothing_witness :
  let q := dispatch (click (Hint 0) [SearchDialog] 100 400) dialog_open_page in
  dlg_open (dialog q) = dlg_open (dialog dialog_open_page) /\
  dlg_closing (dialog q) = dlg_closing (dialog dialog_open_page) /\
  timers q = timers dialog_open_page /\ listeners q = listeners dialog_open_page.
Proof.
  apply (click_inside_box_starts_nothing dialog_open_page
           (click (Hint 0) [SearchDialog] 100 400)).
  - exact dialog_open_page_reachable.
  - reflexivity.
  - vm_compute. split; discriminate.
  - vm_compute. split; discriminate.
  - reflexivity.
  - reflexivity.
Defined.

Lemma invoke_keeps_anim_listener e p l :
  l_kind l ≠ AnimationEnd ->
  anim_listener ∈ listeners p -> anim_listener ∈ listeners (invoke e p l).
Proof.
  intros Hk Hl. change (anim_listener ∈ c_listeners (core (invoke e p l))).
  rewrite invoke_core. apply core_step_listeners. unfold core_unregister.
  destruct (l_once l); [cbn | exact Hl].
  apply unregister_other; [|exact Hl]. intros <-. now apply Hk.
Qed.

Lemma dispatch_invariant_kind (P : Page -> Prop) (e : event) (p : Page) :
  (forall q l, P q -> l_kind l = ev_kind e -> P (invoke e q l)) ->
  P p -> P (dispatch e p).
Proof.
  intros Hstep Hp. unfold dispatch.
  apply fold_left_invariant; [exact Hp|].
  intros q n _ Hq. unfold dispatch_at.
  apply fold_left_invariant; [exact Hq|].
  intros q' l Hl Hq'. apply list_elem_of_filter in Hl as [Hlis _].
  unfold listens in Hlis. apply andb_prop in Hlis as [_ H2].
  apply bool_decide_eq_true_1 in H2. now apply Hstep.
Qed.

Lemma step_keeps_anim_listener i p :
  no_animation_end [i] = true ->
  anim_listener ∈ listeners p -> anim_listener ∈ listeners (step i p).
Proof.
  destruct i as [e | dt]; cbn; intros Hno Hl.
  - rewrite andb_true_r in Hno. apply negb_true_iff, bool_decide_eq_false_1 in Hno.
    apply (dispatch_invariant_kind (fun q => anim_listener ∈ listeners q)); [|exact Hl].
    intros q l Hq Hk. apply invoke_keeps_anim_listener; [congruence | exact Hq].
  - unfold advance_to. cbn. now rewrite fire_due_listeners.
Qed.

(** X16: without an animation end the once-listener stays.  Every close
    request attaches one; timers, clicks, keys and the fallback close
    itself leave it attached, so it is still there when the dialog has
    been closed by the timer and opened again. *)
Theorem close_listener_outlives_fallback (p : Page) (ins : list input) :
  anim_listener ∈ listeners p ->
  no_animation_end ins = true ->
  anim_listener ∈ listeners (run ins p).
Proof.
  revert p. induction ins as [|i r IH]; intros p Hl Hno; [exact Hl|].
  cbn in Hno. apply andb_prop in Hno as [Hi Hr].
  change (run (i :: r) p) with (run r (step i p)).
  apply IH; [|exact Hr]. apply step_keeps_anim_listener; [|exact Hl].
  cbn. now rewrite Hi.
Qed.

Lemma close_listener_outlives_fallback_witness :
  dlg_open (dialog (run closed_by_timer_and_reopened closing_page)) = true /\
  dlg_closing (dialog (run closed_by_timer_and_reopened closing_page)) = false /\
  anim_listener ∈ listeners (run closed_by_timer_and_reopened closing_page).
Proof.
  split; [vm_compute; reflexivity|]. split; [vm_compute; reflexivity|].
  apply (close_listener_outlives_fallback closing_page closed_by_timer_and_reopened).
  - vm_compute. do 17 right. left.
  - reflexivity.
Defined.

(** On the sample page: after a close that no animation ended, the dialog
    is opened again, and the end of any animation inside it closes it. *)
Example stale_listener_closes_reopened_dialog :
  let p := run closed_by_timer_and_reopened closing_page in
  dlg_open (dialog p) = true /\
  dlg_open (dialog (dispatch (plain AnimationEnd (Other 0) [SearchDialog]) p)) = false.
Proof. vm_compute. split; reflexivity. Qed.

(** ** The closing marker *)

(** X17: on every page the script has set up, whatever events and delays
    came, the closing marker is on the dialog only while the dialog is
    open. *)
Theorem closing_marker_only_while_open (p : Page) :
  reachable p ->
  dlg_closing (dialog p) = true -> dlg_open (dialog p) = true.
Proof.
  intros Hr Hc. destruct (reachable_dialog_inv p Hr) as [_ Hm].
  destruct (dlg_open (dialog p)) eqn:Ho; [reflexivity|].
  rewrite (Hm Ho) in Hc. discriminate.
Qed.

Lemma closing_marker_only_while_open_witness :
  dlg_closing (dialog closing_page) = true /\ dlg_open (dialog closing_page) = true.
Proof.
  split; [reflexivity|].
  apply (closing_marker_only_while_open closing_page closing_page_reachable).
  reflexivity.
Defined.

(** ** Skip link *)

Lemma click_handler_effects e q l :
  ev_kind e = Click -> fires e l ->
  (forall i, contains (Hint i) e = false) ->
  contains SearchTrigger e = false ->
  (forall c, c ∈ calls q -> c ∈ calls (invoke e q l)) /\
  (focus (invoke e q l) = focus q \/ l_handler l = HSkipLink).
Proof.
  intros Hk Hf Hhint Htrig.
  pose proof (fires_click_not_once e l Hk Hf) as Ho.
  destruct Hf as (Hp & _ & Hn & Hkind). rewrite Hk in Hkind.
  unfold invoke. rewrite Ho. unfold placed in Hp.
  destruct (l_handler l) eqn:Hh; cbn [run_handler];
    apply andb_prop in Hp as [Hnode Hp]; apply bool_decide_eq_true_1 in Hp;
    try congruence.
  - unfold theme_click, setItem. cbn.
    destruct (st_set_throws _); cbn; (split; [intros c Hc; exact Hc | now left]).
  - split; [intros c Hc; exact Hc | now left].
  - unfold nav_overlay_click. destruct (bool_decide (ev_target e = SiteNav)); (split; [intros c Hc; exact Hc | now left]).
  - split; [intros c Hc; exact Hc | now left].
  - unfold doc_click_details. split; [|left].
    + intros c Hc.
      rewrite (for_each_details_frame calls); [exact Hc|].
      intros j d q'. destruct (negb _); reflexivity.
    + apply (for_each_details_frame focus).
      intros j d q'. destruct (negb _); reflexivity.
  - apply bool_decide_eq_true_1 in Hnode. rewrite Hnode in Hn.
    rewrite (propagation_click_contains e SearchTrigger Hk Hn) in Htrig by discriminate.
    discriminate.
  - split; [intros c Hc; exact Hc | now left].
  - unfold dialog_click. destruct (clicked_backdrop _ _); (split; [intros c Hc; exact Hc | now left]).
  - apply bool_decide_eq_true_1 in Hnode. rewrite Hnode in Hn.
    pose proof (propagation_click_contains e (Hint i) Hk Hn ltac:(discriminate)) as Hc1.
    rewrite Hhint in Hc1. discriminate.
  - split; [|now right]. intros c Hc. cbn.
    rewrite !elem_of_app. auto.
Qed.

(** X18: the skip link.  On a page the script has set up and wired for
    it, a click that reaches the skip link (and no hint or dialog trigger)
    ends with the focus on the main element, and has asked for a scroll to
    the top of main minus the height of the header, or minus nothing when
    there is no header. *)
Theorem skip_link_focuses_main (p : Page) (e : event) :
  reachable p ->
  ev_kind e = Click ->
  contains SkipLink e = true ->
  attach SkipLink Click HSkipLink ∈ listeners p ->
  (forall i, contains (Hint i) e = false) ->
  contains SearchTrigger e = false ->
  let q := dispatch e p in
  focus q = Some MainEl /\
  CallScrollTo (main_top (dom p) + scroll_y (dom p) - default 0 (header_height (dom p)))
    ∈ calls q.
Proof.
  intros Hr Hk Hc Hl Hhint Htrig q.
  set (top := main_top (dom p) + scroll_y (dom p) - default 0 (header_height (dom p))).
  enough (H : tidy q /\ focus q = Some MainEl /\ CallScrollTo top ∈ calls q) by apply H.
  apply (dispatch_establish_tidy
           (fun q => (tidy q /\ dom q = dom p) /\ attach SkipLink Click HSkipLink ∈ listeners q)
           (fun q => tidy q /\ focus q = Some MainEl /\ CallScrollTo top ∈ calls q)
           e (attach SkipLink Click HSkipLink)).
  - intros q' [[Ht _] Hin]. split; assumption.
  - intros q' [Ht _]. exact Ht.
  - apply contains_propagation; [now rewrite Hk | discriminate | exact Hc].
  - now rewrite Hk.
  - intros q' l' [[Ht Hd] Hin] Hf. left. split; [split|].
    + now apply invoke_tidy.
    + now rewrite invoke_dom.
    + now apply invoke_keeps_listener.
  - intros q' l' (Ht & Hfoc & Hcall) Hf.
    destruct (click_handler_effects e q' l' Hk Hf Hhint Htrig) as [Hcalls Hfocus].
    split; [now apply invoke_tidy|]. split; [|now apply Hcalls].
    destruct Hfocus as [-> | Hh]; [exact Hfoc|].
    unfold invoke. rewrite (fires_click_not_once e l' Hk Hf), Hh. reflexivity.
  - intros q' [[Ht Hd] Hin]. split; [now apply invoke_tidy|].
    unfold invoke. cbn. split; [reflexivity|]. unfold top. rewrite <- Hd.
    rewrite !elem_of_app. left. right. left.
  - split; [split|]; [now apply reachable_tidy | reflexivity | exact Hl].
Qed.

Lemma skip_link_focuses_main_witness :
  let q := dispatch (click SkipLink [] 5 5) booted_page in
  focus q = Some MainEl /\ CallScrollTo (200 + 10 - 64) ∈ calls q.
Proof.
  apply (skip_link_focuses_main booted_page (click SkipLink [] 5 5)).
  - apply (reach_boot fresh_page). repeat split.
  - reflexivity.
  - reflexivity.
  - vm_compute. do 16 right. left.
  - reflexivity.
  - reflexivity.
Defined.

(** ** The script's listeners stay as attached *)

Lemma filter_ext_in {A} (P Q : A -> Prop) `{!forall x, Decision (P x)}
    `{!forall x, Decision (Q x)} (l : list A) :
  (forall x, x ∈ l -> (P x <-> Q x)) -> filter P l = filter Q l.
Proof.
  induction l as [|x l IH]; intros Hext; [reflexivity|].
  rewrite !filter_cons.
  assert (Hx : P x <-> Q x) by (apply Hext; left).
  rewrite IH by (intros y Hy; apply Hext; now right).
  destruct (decide (P x)), (decide (Q x)); tauto.
Qed.

Lemma filter_all_in {A} (P : A -> Prop) `{!forall x, Decision (P x)} (l : list A) :
  (forall x, x ∈ l -> P x) -> filter P l = l.
Proof.
  induction l as [|x l IH]; intros Hall; [reflexivity|].
  rewrite filter_cons_True by (apply Hall; left).
  rewrite IH; [reflexivity|]. intros y Hy. apply Hall. now right.
Qed.

Lemma filter_none_in {A} (P : A -> Prop) `{!forall x, Decision (P x)} (l : list A) :
  (forall x, x ∈ l -> ¬ P x) -> filter P l = [].
Proof.
  induction l as [|x l IH]; intros Hall; [reflexivity|].
  rewrite filter_cons_False by (apply Hall; left).
  apply IH. intros y Hy. apply Hall. now right.
Qed.

Lemma own_unregister l ls :
  l_once l = true ->
  filter (fun x => l_once x = false) (unregister l ls)
  = filter (fun x => l_once x = false) ls.
Proof.
  intros Ho. induction ls as [|y ls IH]; [reflexivity|]. cbn [unregister].
  destruct (bool_decide (y = l)) eqn:Hy.
  - apply bool_decide_eq_true_1 in Hy. subst y.
    rewrite filter_cons_False by congruence. reflexivity.
  - rewrite !filter_cons, IH. reflexivity.
Qed.

Lemma own_core_step h e c :
  filter (fun x => l_once x = false) (c_listeners (core_step h e c))
  = filter (fun x => l_once x = false) (c_listeners c).
Proof.
  assert (Happ : forall ls, filter (fun x => l_once x = false) (ls ++ [anim_listener])
                            = filter (fun x => l_once x = false) ls).
  { intros ls. rewrite filter_app. cbn. apply app_nil_r. }
  destruct h; cbn; try reflexivity; try apply Happ.
  destruct (clicked_backdrop _ _); [apply Happ | reflexivity].
Qed.

Lemma invoke_own e p l : own_listeners (invoke e p l) = own_listeners p.
Proof.
  unfold own_listeners.
  change (listeners (invoke e p l)) with (c_listeners (core (invoke e p l))).
  rewrite invoke_core, own_core_step. unfold core_unregister.
  destruct (l_once l) eqn:Ho; [cbn; now apply own_unregister | reflexivity].
Qed.

Lemma fire_due_dom n t p : dom (fire_due n t p) = dom p.
Proof.
  apply (fire_due_invariant (fun q => dom q = dom p)); [|reflexivity].
  intros q x Hq. now rewrite (proj1 (run_timer_frame _ _)).
Qed.

Lemma step_own_dom i p :
  own_listeners (step i p) = own_listeners p /\ dom (step i p) = dom p.
Proof.
  destruct i as [e | dt]; cbn [step].
  - apply (dispatch_always
             (fun q => own_listeners q = own_listeners p /\ dom q = dom p));
      [|split; reflexivity].
    intros q l [H1 H2]. now rewrite invoke_own, invoke_dom.
  - unfold advance_to, own_listeners. cbn. now rewrite fire_due_listeners, fire_due_dom.
Qed.

Lemma wiring_own d ds :
  filter (fun l => l_once l = false) (wiring d ds) = wiring d ds.
Proof. apply filter_all_in. intros l Hl. now apply wiring_sound in Hl. Qed.

(** On a reachable page the script's own listeners are none (it raised at
    the read) or the wiring of the page's elements. *)
Lemma reachable_own p :
  reachable p ->
  own_listeners p = [] \/ exists ds, own_listeners p = wiring (dom p) ds.
Proof.
  induction 1 as [p0 (Hl & _) | p i _ IH _].
  - destruct (st_get_throws (storage p0)) eqn:Hr.
    + left. unfold main, restore_theme, getItem. rewrite Hr. cbn.
      unfold own_listeners. now rewrite Hl.
    + right. exists (details p0). rewrite (main_eq p0 Hr). cbn.
      unfold own_listeners. cbn. rewrite Hl. cbn.
      rewrite (proj1 (restored_frame p0)). apply wiring_own.
  - destruct (step_own_dom i p) as [-> ->]. exact IH.
Qed.

Lemma snapshot_own n k p :
  tidy p -> k ≠ AnimationEnd ->
  filter (fun l => listens n k l = true) (listeners p)
  = filter (fun l => listens n k l = true) (own_listeners p).
Proof.
  intros Ht Hk. unfold own_listeners. rewrite list_filter_filter.
  apply filter_ext_in. intros l Hl. split; [|tauto].
  intros Hlis. split; [exact Hlis|].
  unfold listens in Hlis. apply andb_prop in Hlis as [_ Hkind].
  apply bool_decide_eq_true_1 in Hkind.
  destruct (Ht l Hl) as [Hp Hon]. destruct (l_once l); [|reflexivity].
  pose proof (proj1 Hon eq_refl) as Hh. unfold placed in Hp. rewrite Hh in Hp.
  apply andb_prop in Hp as [_ Hp]. apply bool_decide_eq_true_1 in Hp. congruence.
Qed.

Lemma listens_attach n k n' k' h :
  listens n k (attach n' k' h) = bool_decide (n' = n) && bool_decide (k' = k).
Proof. reflexivity. Qed.

Lemma keydown_snapshot_wiring n d ds :
  filter (fun l => listens n KeyDown l = true) (wiring d ds)
  = if bool_decide (n = Document) then keydown_listeners d else [].
Proof.
  assert (Hmap : forall {B} (f : B -> listener) (l : list B),
             (forall x, l_kind (f x) ≠ KeyDown) ->
             filter (fun l => listens n KeyDown l = true) (map f l) = []).
  { intros B f l Hf. apply filter_none_in. intros x Hx Hlis.
    apply list_elem_of_fmap in Hx as (y & -> & _).
    unfold listens in Hlis. apply andb_prop in Hlis as [_ Hk].
    apply bool_decide_eq_true_1 in Hk. now apply (Hf y). }
  assert (Hskip : forall n' k' h r, k' ≠ KeyDown ->
             filter (fun l => listens n KeyDown l = true) (attach n' k' h :: r)
             = filter (fun l => listens n KeyDown l = true) r).
  { intros n' k' h r Hk. apply filter_cons_False. rewrite listens_attach.
    rewrite (bool_decide_eq_false_2 _ Hk), andb_false_r. discriminate. }
  assert (Hdoc : forall h r,
             filter (fun l => listens n KeyDown l = true) (attach Document KeyDown h :: r)
             = (if bool_decide (n = Document) then [attach Document KeyDown h] else [])
               ++ filter (fun l => listens n KeyDown l = true) r).
  { intros h r. rewrite filter_cons, listens_attach.
    rewrite (bool_decide_eq_true_2 (KeyDown = KeyDown)) by reflexivity.
    rewrite andb_true_r.
    destruct (decide (n = Document)) as [-> | Hne].
    - rewrite !bool_decide_eq_true_2 by reflexivity.
      rewrite decide_True by reflexivity. reflexivity.
    - rewrite (bool_decide_eq_false_2 (Document = n)) by congruence.
      rewrite (bool_decide_eq_false_2 (n = Document)) by exact Hne.
      rewrite decide_False by discriminate. reflexivity. }
  assert (H1 : filter (fun l => listens n KeyDown l = true) (theme_wiring d) = []).
  { unfold theme_wiring. destruct (has_theme_toggle d); [|reflexivity].
    now rewrite Hskip by discriminate. }
  assert (H2 : filter (fun l => listens n KeyDown l = true) (nav_wiring d)
               = if bool_decide (n = Document)
                 then (if has_hamburger d && has_site_nav d
                       then [attach Document KeyDown HNavEscape] else [])
                 else []).
  { unfold nav_wiring. destruct (has_hamburger d && has_site_nav d).
    - rewrite filter_app, Hmap by discriminate.
      rewrite !Hskip, Hdoc by discriminate.
      destruct (bool_decide (n = Document)); reflexivity.
    - destruct (bool_decide (n = Document)); reflexivity. }
  assert (H3 : filter (fun l => listens n KeyDown l = true) (details_wiring ds)
               = if bool_decide (n = Document)
                 then [attach Document KeyDown HDocEscapeDetails] else []).
  { unfold details_wiring. rewrite filter_app, Hmap by discriminate.
    rewrite Hskip, Hdoc by discriminate.
    destruct (bool_decide (n = Document)); reflexivity. }
  assert (H4 : filter (fun l => listens n KeyDown l = true) (search_wiring d) = []).
  { unfold search_wiring.
    destruct (has_search_dialog d && has_search_trigger d); [|reflexivity].
    rewrite !filter_app, Hmap by discriminate.
    rewrite !Hskip by discriminate.
    destruct (has_search_close d); [rewrite Hskip by discriminate|]; reflexivity. }
  assert (H5 : filter (fun l => listens n KeyDown l = true) (skip_wiring d) = []).
  { unfold skip_wiring. destruct (has_skip_link d && has_main d); [|reflexivity].
    now rewrite Hskip by discriminate. }
  unfold wiring, keydown_listeners. rewrite !filter_app, H1, H2, H3, H4, H5.
  destruct (bool_decide (n = Document)); [|reflexivity].
  now rewrite !app_nil_r.
Qed.

(** ** A key press on a wired page *)

Lemma reachable_set_up p l :
  reachable p -> l_once l = false -> l ∈ listeners p -> set_up p.
Proof.
  intros Hr Ho Hl. split; [now apply reachable_tidy|].
  assert (Hown : l ∈ own_listeners p)
    by (apply list_elem_of_filter; split; [exact Ho | exact Hl]).
  destruct (reachable_own p Hr) as [Hnil | Hds]; [|exact Hds].
  rewrite Hnil in Hown. inversion Hown.
Qed.

Lemma set_up_attached p l :
  set_up p -> l_once l = false -> placed l = true ->
  (forall ds, feature_present (dom p) ds l = true) ->
  l ∈ listeners p.
Proof.
  intros [_ [ds Hds]] Ho Hp Hf.
  assert (Hin : l ∈ own_listeners p)
    by (rewrite Hds; apply wiring_complete; auto).
  now apply list_elem_of_filter in Hin as [_ Hin].
Qed.

(** On a page set up with the nav feature, a key press runs the two
    keydown listeners of the document, the nav one first. *)
Lemma dispatch_keydown p e :
  set_up p -> nav_present p -> ev_kind e = KeyDown ->
  dispatch e p = doc_keydown_details e (nav_keydown e p).
Proof.
  intros [Ht [ds Hown]] [Hh Hn] Hk.
  assert (Hsnap : forall n, filter (fun l => listens n KeyDown l = true) (listeners p)
                            = if bool_decide (n = Document)
                              then [attach Document KeyDown HNavEscape;
                                    attach Document KeyDown HDocEscapeDetails]
                              else []).
  { intros n. rewrite snapshot_own by (auto; discriminate).
    rewrite Hown, keydown_snapshot_wiring. unfold keydown_listeners.
    now rewrite Hh, Hn. }
  unfold dispatch, propagation. rewrite Hk. cbn [bubbles]. rewrite fold_left_app.
  assert (Hpre : fold_left (dispatch_at e)
                   (filter (fun n => n ≠ Document) (ev_target e :: ev_ancestors e)) p = p).
  { apply (fold_left_invariant _ (fun q => q = p)); [reflexivity|].
    intros q n Hn' ->. apply list_elem_of_filter in Hn' as [Hn' _].
    unfold dispatch_at. rewrite Hk, Hsnap.
    now rewrite bool_decide_eq_false_2 by exact Hn'. }
  rewrite Hpre. cbn [fold_left]. unfold dispatch_at. rewrite Hk, Hsnap.
  rewrite bool_decide_eq_true_2 by reflexivity. reflexivity.
Qed.

Lemma doc_keydown_details_frame {X} (f : Page -> X) e p :
  (forall i q, f (remove_open i q) = f q) ->
  (forall n q, f (do_focus n q) = f q) ->
  f (doc_keydown_details e p) = f p.
Proof.
  intros H1 H2. unfold doc_keydown_details.
  destruct (String.eqb (ev_key e) "Escape"); [|reflexivity].
  apply for_each_details_frame. intros j d q.
  destruct (d_has_summary d); [now rewrite H2, H1 | now rewrite H1].
Qed.

Lemma doc_keydown_details_calls e p c :
  c ∈ calls p -> c ∈ calls (doc_keydown_details e p).
Proof.
  intros Hc. unfold doc_keydown_details.
  destruct (String.eqb (ev_key e) "Escape"); [|exact Hc].
  unfold for_each_details.
  apply (fold_left_invariant _ (fun q => c ∈ calls q)); [exact Hc|].
  intros q [j d] _ Hq. destruct (d_open d); [|exact Hq].
  destruct (d_has_summary d); [|exact Hq].
  cbn. apply elem_of_app. now left.
Qed.

Lemma doc_keydown_focus_last e p j d :
  ev_key e = "Escape" ->
  details p !! j = Some d -> d_open d = true -> d_has_summary d = true ->
  (forall k d', (j < k)%nat -> details p !! k = Some d' ->
                d_open d' && d_has_summary d' = false) ->
  focus (doc_keydown_details e p) = Some (SummaryN j).
Proof.
  intros Hk Hd Ho Hs Hlast. unfold doc_keydown_details. rewrite Hk.
  change (String.eqb "Escape" "Escape") with true. cbn iota.
  pose proof (take_drop_middle (details p) j d Hd) as Hsplit.
  assert (Hlen : length (take j (details p)) = j)
    by (rewrite length_take; apply lookup_lt_Some in Hd; lia).
  rewrite <- Hlen at 1.
  apply (escape_focus_after _ d (drop (S j) (details p)));
    [now symmetry | exact Ho | exact Hs |].
  intros d' Hd'. apply list_elem_of_lookup in Hd' as [k Hk'].
  rewrite lookup_drop in Hk'. apply (Hlast (S j + k)%nat d'); [lia | exact Hk'].
Qed.

(** C5, where the code departs from it.  On a page the script has set up
    with the hamburger and the nav present, Escape pressed while the
    panel is open and a details element with a summary is open: the panel
    is closed and [hamburger.focus()] is called, as the claim says, but
    the dropdown menus' keydown listener runs next and the focus ends on
    the summary of the last open details element, not on the hamburger. *)
Theorem escape_focus_ends_on_menu_summary (p : Page) (e : event) (j : nat) (d : DetailsEl) :
  set_up p -> nav_present p ->
  ev_kind e = KeyDown -> ev_key e = "Escape" ->
  nav_is_open p = true ->
  details p !! j = Some d -> d_open d = true -> d_has_summary d = true ->
  (forall k d', (j < k)%nat -> details p !! k = Some d' ->
                d_open d' && d_has_summary d' = false) ->
  let q := dispatch e p in
  nav_closed q /\
  CallFocus Hamburger ∈ calls q /\
  focus q = Some (SummaryN j) /\
  focus q ≠ Some Hamburger.
Proof.
  intros Hs Hnav Hk Hkey Hopen Hd Ho Hsum Hlast q.
  assert (Hq : q = doc_keydown_details e (do_focus Hamburger (closeNav p))).
  { unfold q. rewrite (dispatch_keydown p e Hs Hnav Hk).
    unfold nav_keydown. now rewrite Hkey, Hopen. }
  assert (Hfocus : focus q = Some (SummaryN j)).
  { rewrite Hq. now apply (doc_keydown_focus_last e _ j d). }
  split; [|split; [|split]].
  - unfold nav_closed. rewrite Hq.
    rewrite (doc_keydown_details_frame nav) by reflexivity. repeat split.
  - rewrite Hq. apply doc_keydown_details_calls. cbn. apply elem_of_app. right. left.
  - exact Hfocus.
  - rewrite Hfocus. discriminate.
Qed.

Lemma nav_open_page_reachable : reachable nav_open_page.
Proof.
  apply (reach_step booted_page (Deliver (click Hamburger [] 5 5)));
    [apply (reach_boot fresh_page); repeat split | vm_compute; reflexivity].
Qed.

Lemma set_up_with_details ds p : set_up p -> set_up (with_details ds p).
Proof. intros H. exact H. Qed.

Lemma nav_and_menu_open_page_set_up : set_up nav_and_menu_open_page.
Proof.
  unfold nav_and_menu_open_page. apply set_up_with_details.
  apply (reachable_set_up nav_open_page (attach Document KeyDown HNavEscape)).
  - exact nav_open_page_reachable.
  - reflexivity.
  - vm_compute. do 3 right. left.
Qed.

Lemma escape_focus_ends_on_menu_summary_witness :
  let q := dispatch (keydown (SummaryN 0) [DetailsN 0; SiteNav] "Escape")
             nav_and_menu_open_page in
  nav_closed q /\
  CallFocus Hamburger ∈ calls q /\
  focus q = Some (SummaryN 0) /\
  focus q ≠ Some Hamburger.
Proof.
  apply (escape_focus_ends_on_menu_summary nav_and_menu_open_page
           (keydown (SummaryN 0) [DetailsN 0; SiteNav] "Escape") 0
           {| d_open := true; d_in_nav := true; d_has_summary := true |}).
  - exact nav_and_menu_open_page_set_up.
  - split; reflexivity.
  - reflexivity.
  - reflexivity.
  - reflexivity.
  - reflexivity.
  - reflexivity.
  - reflexivity.
  - intros k d' Hlt Hd'. destruct k as [|[|[|k]]]; try lia; try discriminate;
      cbn in Hd'; injection Hd' as <-; reflexivity.
Defined.

(** ** The nav panel's close triggers, dispatched *)

Lemma run_handler_nav_close h e p :
  h ≠ HHamburger ->
  nav (page_of (run_handler h e p)) = nav p \/
  nav (page_of (run_handler h e p)) = nav_state false.
Proof.
  intros Hh.
  destruct h; cbn [run_handler page_of]; try (left; reflexivity); try congruence.
  - left. unfold theme_click, setItem. cbn. destruct (st_set_throws _); reflexivity.
  - unfold nav_overlay_click. destruct (bool_decide _); [right | left]; reflexivity.
  - unfold nav_keydown. destruct (_ && _); [right | left]; reflexivity.
  - right. reflexivity.
  - left. unfold doc_click_details. apply (for_each_details_frame nav).
    intros j d q. destruct (negb _); reflexivity.
  - left. apply (doc_keydown_details_frame nav); reflexivity.
  - left. unfold details_toggle. destruct (details_is_open i p); [|reflexivity].
    apply (for_each_details_frame nav). intros j d q. destruct (bool_decide _); reflexivity.
  - left. unfold search_open, showModal. cbn. destruct (dlg_open _); reflexivity.
  - left. unfold dialog_click. destruct (clicked_backdrop _ _); reflexivity.
  - left. unfold hint_click. destruct (has_search_input _); reflexivity.
  - left. unfold anim_end, native_close. cbn. destruct (dlg_open _); reflexivity.
Qed.

Lemma invoke_keeps_nav_closed e q l :
  l_handler l ≠ HHamburger ->
  nav q = nav_state false -> nav (invoke e q l) = nav_state false.
Proof.
  intros Hh Hq. unfold invoke.
  set (q' := if l_once l then _ else q).
  assert (Hq' : nav q' = nav q) by (subst q'; destruct (l_once l); reflexivity).
  destruct (run_handler_nav_close (l_handler l) e q' Hh) as [H | H];
    destruct (run_handler (l_handler l) e q') as [r | r]; cbn in *; congruence.
Qed.

Lemma fires_click_not_hamburger e l :
  ev_kind e = Click -> contains Hamburger e = false -> fires e l ->
  l_handler l ≠ HHamburger.
Proof.
  intros Hk Hc (Hp & _ & Hn & _) Hh. unfold placed in Hp. rewrite Hh in Hp.
  apply andb_prop in Hp as [Hnode _]. apply bool_decide_eq_true_1 in Hnode.
  rewrite Hnode in Hn.
  rewrite (propagation_click_contains e Hamburger Hk Hn) in Hc by discriminate.
  discriminate.
Qed.

Lemma nav_state_false_closed q : nav q = nav_state false -> nav_closed q.
Proof. intros H. unfold nav_closed. rewrite H. repeat split. Qed.

Lemma click_closes_nav p e l :
  tidy p -> ev_kind e = Click -> contains Hamburger e = false ->
  l ∈ listeners p -> l_once l = false -> l_kind l = Click ->
  contains (l_node l) e = true -> l_node l ≠ Document ->
  (forall q, nav (invoke e q l) = nav_state false) ->
  nav_closed (dispatch e p).
Proof.
  intros Ht Hk Hham Hl Ho Hkind Hc Hdoc Hhit.
  apply nav_state_false_closed.
  enough (H : tidy (dispatch e p) /\ nav (dispatch e p) = nav_state false) by apply H.
  apply (dispatch_establish_tidy
           (fun q => tidy q /\ l ∈ listeners q)
           (fun q => tidy q /\ nav q = nav_state false) e l).
  - auto.
  - intros q [H _]. exact H.
  - apply contains_propagation; [now rewrite Hk | exact Hdoc | exact Hc].
  - now rewrite Hk.
  - intros q l' [Htq Hin] Hf. left. split; [now apply invoke_tidy|].
    now apply invoke_keeps_listener.
  - intros q l' [Htq Hnav] Hf. split; [now apply invoke_tidy|].
    apply invoke_keeps_nav_closed; [|exact Hnav].
    now apply (fires_click_not_hamburger e).
  - intros q [Htq _]. split; [now apply invoke_tidy | apply Hhit].
  - split; assumption.
Qed.

(** X19: the three close triggers of the nav panel, dispatched.  On a
    page the script has set up with the hamburger and the nav present: a
    click on the panel itself, and a click that reaches a navigation link,
    neither under the hamburger, end with aria-hidden "true",
    aria-expanded "false" and the body overflow cleared, whatever other
    listeners the click reaches; Escape with the panel open ends the same
    way, has called the hamburger's focus, and leaves the focus on the
    hamburger when no details element is open. *)
Theorem nav_close_triggers_dispatched (p : Page) (e : event) :
  set_up p -> nav_present p ->
  (ev_kind e = Click -> contains Hamburger e = false ->
     (ev_target e = SiteNav \/
      exists i, (i < nav_links (dom p))%nat /\ contains (NavLink i) e = true) ->
     nav_closed (dispatch e p)) /\
  (ev_kind e = KeyDown -> ev_key e = "Escape" -> nav_is_open p = true ->
     nav_closed (dispatch e p) /\
     CallFocus Hamburger ∈ calls (dispatch e p) /\
     ((forall j d, details p !! j = Some d -> d_open d = false) ->
      focus (dispatch e p) = Some Hamburger)).
Proof.
  intros Hs Hnav. pose proof Hs as [Ht _]. pose proof Hnav as [Hh Hn]. split.
  - intros Hk Hham [Htarget | (i & Hi & Hc)].
    + apply (click_closes_nav p e (attach SiteNav Click HNavOverlay));
        [exact Ht | exact Hk | exact Hham | | reflexivity | reflexivity | | | ].
      * apply set_up_attached; [exact Hs | reflexivity | reflexivity |].
        intros ds. cbn. now rewrite Hh, Hn.
      * cbn. unfold contains. apply bool_decide_eq_true_2. rewrite Htarget. left.
      * discriminate.
      * intros q. unfold invoke. cbn. unfold nav_overlay_click.
        now rewrite bool_decide_eq_true_2 by exact Htarget.
    + apply (click_closes_nav p e (attach (NavLink i) Click HCloseNav));
        [exact Ht | exact Hk | exact Hham | | reflexivity | reflexivity | exact Hc | | ].
      * apply set_up_attached; [exact Hs | reflexivity | reflexivity |].
        intros ds. cbn. rewrite Hh, Hn. cbn. now apply Nat.ltb_lt.
      * discriminate.
      * intros q. reflexivity.
  - intros Hk Hkey Hopen.
    assert (Hq : dispatch e p = doc_keydown_details e (do_focus Hamburger (closeNav p))).
    { rewrite (dispatch_keydown p e Hs Hnav Hk).
      unfold nav_keydown. now rewrite Hkey, Hopen. }
    rewrite Hq. split; [|split].
    + apply nav_state_false_closed.
      now rewrite (doc_keydown_details_frame nav) by reflexivity.
    + apply doc_keydown_details_calls. cbn. apply elem_of_app. right. left.
    + intros Hnone. unfold doc_keydown_details.
      destruct (String.eqb (ev_key e) "Escape"); [|reflexivity].
      rewrite for_each_details_inert; [reflexivity|].
      intros j d q Hd Ho. cbn in Hd. rewrite (Hnone j d Hd) in Ho. discriminate.
Qed.

Lemma nav_open_page_set_up : set_up nav_open_page.
Proof.
  apply (reachable_set_up nav_open_page (attach Document KeyDown HNavEscape)).
  - exact nav_open_page_reachable.
  - reflexivity.
  - vm_compute. do 3 right. left.
Qed.

Lemma nav_close_triggers_dispatched_witness :
  nav_closed (dispatch (click SiteNav [] 5 5) nav_open_page) /\
  nav_closed (dispatch (click (NavLink 1) [SiteNav] 5 5) nav_open_page) /\
  nav_closed (dispatch (keydown Hamburger [] "Escape") nav_open_page) /\
  focus (dispatch (keydown Hamburger [] "Escape") nav_open_page) = Some Hamburger.
Proof.
  assert (Hnav : nav_present nav_open_page) by (split; vm_compute; reflexivity).
  split; [|split].
  - apply (proj1 (nav_close_triggers_dispatched nav_open_page (click SiteNav [] 5 5)
                    nav_open_page_set_up Hnav)); [reflexivity | reflexivity |].
    left. reflexivity.
  - apply (proj1 (nav_close_triggers_dispatched nav_open_page
                    (click (NavLink 1) [SiteNav] 5 5) nav_open_page_set_up Hnav));
      [reflexivity | reflexivity |].
    right. exists 1%nat. split; [vm_compute; lia | reflexivity].
  - assert (Hopen : nav_is_open nav_open_page = true) by (vm_compute; reflexivity).
    destruct (proj2 (nav_close_triggers_dispatched nav_open_page
                       (keydown Hamburger [] "Escape") nav_open_page_set_up Hnav)
                eq_refl eq_refl Hopen) as (H1 & _ & H3).
    split; [exact H1|]. apply H3.
    intros j d Hd. vm_compute in Hd.
    destruct j as [|[|[|j]]]; try discriminate; injection Hd as <-; reflexivity.
Defined.

(** ** A hint activated: the whole click *)

Example trim_strips_unicode_space : trim padded_hint = "CSS".
Proof. reflexivity. Qed.





